(** * Poco::Data::RecordSet

    A shallow embedding of [Data/include/Poco/Data/RecordSet.h] and the
    properties of the tabular result-set cursor that its specification
    states.

    Conventions.
    - [std::size_t] values are [N]; the header itself performs no
      arithmetic on them, only comparisons and indexing.
    - A C++ function that may throw returns a [result]: [OK v] for a
      normal return, [Throw e] for a thrown Poco exception.
    - A template parameter pack [<T, C>] becomes two ordinary arguments,
      the element type [T : CppType] and the container [C : Container].
    - Overloads get distinct names: [column] / [column_byName],
      [value_T] / [value_T_byName] (the templates), [value_any] /
      [value_any_byName] (the [DynamicAny] overloads), and so on. *)

From stdpp Require Import base decidable option list numbers strings gmap.
From Stdlib Require Import Ascii NArith ZArith Lia.

Local Open Scope N_scope.

(** ** Exceptions and results *)

(** The Poco exceptions the header can throw, and [out_of_bounds_access]:
    no exception, but the outcome of indexing a [std::vector] outside
    its bounds, which C++ leaves undefined.  The header guards each of
    its two index expressions; the embedding keeps the guard and the
    index expression apart, so that the guard is what excludes this
    outcome. *)
Inductive Exception : Type :=
  | RangeException
  | BadCastException
  | NotFoundException
  | IllegalStateException
  | AssertionViolationException
  | out_of_bounds_access.

#[global] Instance Exception_eq_dec : EqDecision Exception.
Proof. solve_decision. Defined.

Inductive result (A : Type) : Type :=
  | OK (a : A)
  | Throw (e : Exception).

Arguments OK {A} a.
Arguments Throw {A} e.

#[global] Instance result_ret : MRet result := fun _ a => OK a.
#[global] Instance result_bind : MBind result := fun _ _ f m =>
  match m with
  | OK a => f a
  | Throw e => Throw e
  end.
#[global] Instance result_fmap : FMap result := fun _ _ f m =>
  match m with
  | OK a => OK (f a)
  | Throw e => Throw e
  end.

(** [poco_assert (cond)]: the macro (Poco/Bugcheck.h) is not among the
    sources; a failed assertion is taken to raise
    [AssertionViolationException]. *)
Definition poco_assert (cond : bool) : result unit :=
  if cond then OK tt else Throw AssertionViolationException.

(** ** Strings *)

Module PocoString.

(** Modelled from the spec: [Poco::icompare] (Poco/String.h is not among
    the sources) compares "case-insensitively"; it is taken to be the
    three-way comparison of the two strings after lowering every
    character, with letters being the ASCII letters. *)
Definition toLower (c : ascii) : ascii :=
  let n := N_of_ascii c in
  if (65 <=? n) && (n <=? 90) then ascii_of_N (n + 32) else c.

Fixpoint icompare (str1 str2 : string) : Z :=
  match str1, str2 with
  | EmptyString, EmptyString => 0%Z
  | EmptyString, String _ _ => (-1)%Z
  | String _ _, EmptyString => 1%Z
  | String a1 r1, String a2 r2 =>
      let c1 := N_of_ascii (toLower a1) in
      let c2 := N_of_ascii (toLower a2) in
      if c1 <? c2 then (-1)%Z
      else if c2 <? c1 then 1%Z
      else icompare r1 r2
  end.

Fixpoint lower (s : string) : string :=
  match s with
  | EmptyString => EmptyString
  | String a r => String (toLower a) (lower r)
  end.

End PocoString.

(** ** The execution context: columns, extractions, statements *)

(** The element type [T] of a [Column<T,C>]; [T_other] keeps the set of
    C++ types open, identified by [typeid(T).name()]. *)
Inductive CppType : Type :=
  | T_bool
  | T_Int32
  | T_Int64
  | T_string
  | T_other (typeid_name : string).

#[global] Instance CppType_eq_dec : EqDecision CppType.
Proof. solve_decision. Defined.

(** The container [C] of a [Column<T,C>]: [std::vector<T>],
    [std::list<T>] or [std::deque<T>]. *)
Inductive Container : Type :=
  | std_vector
  | std_list
  | std_deque.

#[global] Instance Container_eq_dec : EqDecision Container.
Proof. solve_decision. Defined.

(** The values a column stores (a [T]), tagged with their shape. *)
Inductive CppValue : Type :=
  | V_bool (b : bool)
  | V_int (z : Z)
  | V_string (s : string).

#[global] Instance CppValue_eq_dec : EqDecision CppValue.
Proof. solve_decision. Defined.

(** [Poco::DynamicAny]: a box around a value of any supported type. *)
Inductive DynamicAny : Type :=
  | Any (v : CppValue).

#[global] Instance DynamicAny_eq_dec : EqDecision DynamicAny.
Proof. solve_decision. Defined.

(** [MetaColumn::ColumnDataType]; the enumeration is declared in
    MetaColumn.h, which is not among the sources. *)
Inductive ColumnDataType : Type :=
  | FDT_BOOL
  | FDT_INT32
  | FDT_INT64
  | FDT_STRING
  | FDT_UNKNOWN.

(** Modelled from the spec: [MetaColumn] (MetaColumn.h is not among the
    sources) is the "static descriptor (name, declared type, length,
    precision, nullability) for one column", with a zero-based
    position. *)
Record MetaColumn : Type := mkMetaColumn {
  mc_name : string;
  mc_position : N;
  mc_type : ColumnDataType;
  mc_length : N;
  mc_precision : N;
  mc_nullable : bool
}.

(** Modelled from the spec: [Column<T,C>] (Column.h is not among the
    sources) is "an ordered, typed container of values for one result
    column, tagged with a name, ordinal position", holding "a reference
    to its MetaColumn". *)
Record Column : Type := mkColumn {
  col_meta : MetaColumn;
  col_data : list CppValue
}.

Definition Column_name (c : Column) : string := mc_name (col_meta c).
Definition Column_position (c : Column) : N := mc_position (col_meta c).

(** Modelled from the spec: [Column<T,C>::value(row)] reads the value at
    [row]; an index outside the data is a "RangeError". *)
Definition Column_value (c : Column) (row : N) : result CppValue :=
  match col_data c !! N.to_nat row with
  | Some v => OK v
  | None => Throw RangeException
  end.

(** One entry of the extraction set: an [AbstractExtraction] whose
    dynamic type is [InternalExtraction<T,C>] for the recorded [T] and
    [C].  [ext_numOfRowsHandled] is what the virtual
    [numOfRowsHandled()] reports, [ext_nulls] the per-row NULL flags the
    execution context keeps for the column. *)
Record AbstractExtraction : Type := mkExtraction {
  ext_T : CppType;
  ext_C : Container;
  ext_column : Column;
  ext_numOfRowsHandled : N;
  ext_nulls : list bool
}.

Definition numOfRowsHandled (e : AbstractExtraction) : N :=
  ext_numOfRowsHandled e.

(** [dynamic_cast<const InternalExtraction<T,C>*>(p)]: the entry itself
    when its dynamic type is [InternalExtraction<T,C>], the null pointer
    otherwise. *)
Definition dynamic_cast (T : CppType) (C : Container)
    (e : AbstractExtraction) : option AbstractExtraction :=
  if decide (ext_T e = T ∧ ext_C e = C) then Some e else None.

(** [Statement::Storage]; the enumeration is declared in Statement.h,
    which is not among the sources.  The four enumerators are the ones
    the header names; [STORAGE_out_of_enum] stands for any other value
    the underlying integer may hold. *)
Inductive Storage : Type :=
  | STORAGE_DEQUE
  | STORAGE_VECTOR
  | STORAGE_LIST
  | STORAGE_UNKNOWN
  | STORAGE_out_of_enum (raw : Z).

(** The part of [Statement] that [RecordSet] reads through
    [storage()], [extractions()], [metaColumn()] and [isNull()]. *)
Record Statement : Type := mkStatement {
  storage : Storage;
  extractions : list AbstractExtraction;
  metaColumns : list MetaColumn
}.

(** Modelled from the spec: [Statement::metaColumn(pos)] (Statement.h is
    not among the sources): "out-of-range position signals
    RangeError". *)
Definition metaColumn (s : Statement) (pos : N) : result MetaColumn :=
  match metaColumns s !! N.to_nat pos with
  | Some m => OK m
  | None => Throw RangeException
  end.

(** Modelled from the spec: [Statement::metaColumn(name)], "resolvable by
    ... case-insensitive name; resolution failure for a name signals
    NotFoundError". *)
Fixpoint metaColumn_scan (ms : list MetaColumn) (name : string)
    : result MetaColumn :=
  match ms with
  | [] => Throw NotFoundException
  | m :: rest =>
      if decide (PocoString.icompare name (mc_name m) = 0%Z) then OK m
      else metaColumn_scan rest name
  end.

Definition metaColumn_byName (s : Statement) (name : string)
    : result MetaColumn :=
  metaColumn_scan (metaColumns s) name.

(** Modelled from the spec: [Statement::isNull(col, row)] "report[s]
    column nullability state at a given row"; an index outside the
    extraction set or outside the rows is a "RangeError". *)
Definition Statement_isNull (s : Statement) (col row : N) : result bool :=
  match extractions s !! N.to_nat col with
  | None => Throw RangeException
  | Some e =>
      match ext_nulls e !! N.to_nat row with
      | Some b => OK b
      | None => Throw RangeException
      end
  end.

(** ** Rows, iterators and the record set *)

(** Modelled from the spec: [Row] (Row.h is not among the sources) is "a
    lazily-constructed, cached, single-row view that projects one index
    across all columns", materialized on first access. *)
Record Row : Type := mkRow {
  row_index : N;
  row_values : list DynamicAny
}.

#[global] Instance Row_eq_dec : EqDecision Row.
Proof. solve_decision. Defined.

(** Modelled from the spec: [RowIterator] (RowIterator.h is not among the
    sources) "holds ... a current index plus an end-of-range flag". *)
Record RowIterator : Type := mkRowIterator {
  it_position : N;
  it_end : bool
}.

(** [class RecordSet : private Statement] with its four data members.
    [RowMap] is [std::map<std::size_t, Row*>]. *)
Record RecordSet : Type := mkRecordSet {
  stmt : Statement;
  _currentRow : N;
  _pBegin : option RowIterator;
  _pEnd : option RowIterator;
  _rowMap : gmap N Row
}.

Definition set_currentRow (rs : RecordSet) (r : N) : RecordSet :=
  mkRecordSet (stmt rs) r (_pBegin rs) (_pEnd rs) (_rowMap rs).

Definition set_rowMap (rs : RecordSet) (m : gmap N Row) : RecordSet :=
  mkRecordSet (stmt rs) (_currentRow rs) (_pBegin rs) (_pEnd rs) m.

(** Modelled from the spec: the constructor [RecordSet(const Statement&)]
    (RecordSet.cpp is not among the sources): the cursor "defaults to 0",
    the row cache starts empty and the two sentinels are "lazily
    created". *)
Definition RecordSet_new (rStatement : Statement) : RecordSet :=
  mkRecordSet rStatement 0 None None ∅.

Module RecordSet.

(** [std::size_t columnCount() const] *)
Definition columnCount (rs : RecordSet) : N :=
  N.of_nat (length (extractions (stmt rs))).

(** [std::size_t rowCount() const]: the assertion, then
    [extractions()[0].get()->numOfRowsHandled()].  The [None] branch is
    [extractions()[0]] on an empty vector. *)
Definition rowCount (rs : RecordSet) : result N :=
  poco_assert (negb (N.of_nat (length (extractions (stmt rs))) =? 0)) ;;
  match extractions (stmt rs) !! 0%nat with
  | Some e => OK (numOfRowsHandled e)
  | None => Throw out_of_bounds_access
  end.

(** [Statement& operator = (const Statement& stmt)]: the cursor is
    reset, then the [Statement] base sub-object is assigned; the other
    members are not mentioned. *)
Definition assign (rs : RecordSet) (s : Statement) : RecordSet :=
  let rs' := set_currentRow rs 0 in
  mkRecordSet s (_currentRow rs') (_pBegin rs') (_pEnd rs') (_rowMap rs').

(** [template <class T, class C> const Column<T,C>& column(std::size_t pos) const].
    The second [None] branch is [rExtractions[pos]] past the end. *)
Definition column (T : CppType) (C : Container) (rs : RecordSet) (pos : N)
    : result Column :=
  let rExtractions := extractions (stmt rs) in
  let s := N.of_nat (length rExtractions) in
  if (0 =? s) || (s <=? pos) then Throw RangeException
  else
    match rExtractions !! N.to_nat pos with
    | Some e =>
        match dynamic_cast T C e with
        | Some pExtraction => OK (ext_column pExtraction)
        | None => Throw BadCastException
        end
    | None => Throw out_of_bounds_access
    end.

(** The loop of [columnPosition<T,C>(name)] over [it .. end]. *)
Fixpoint columnPosition_loop (T : CppType) (C : Container)
    (name : string) (it : list AbstractExtraction) : result N :=
  match it with
  | [] => Throw NotFoundException
  | e :: rest =>
      match dynamic_cast T C e with
      | Some pExtraction =>
          let col := ext_column pExtraction in
          if decide (0%Z = PocoString.icompare name (Column_name col))
          then OK (Column_position col)
          else columnPosition_loop T C name rest
      | None => columnPosition_loop T C name rest
      end
  end.

(** [template <class T, class C> std::size_t columnPosition(const std::string& name) const] *)
Definition columnPosition (T : CppType) (C : Container) (rs : RecordSet)
    (name : string) : result N :=
  columnPosition_loop T C name (extractions (stmt rs)).

(** [template <class T, class C> const Column<T,C>& column(const std::string& name) const] *)
Definition column_byName (T : CppType) (C : Container) (rs : RecordSet)
    (name : string) : result Column :=
  pos ← columnPosition T C rs name;
  column T C rs pos.

(** [template <class T> const T& value(std::size_t col, std::size_t row) const] *)
Definition value_T (T : CppType) (rs : RecordSet) (col row : N)
    : result CppValue :=
  match storage (stmt rs) with
  | STORAGE_VECTOR
  | STORAGE_UNKNOWN => c ← column T std_vector rs col; Column_value c row
  | STORAGE_LIST => c ← column T std_list rs col; Column_value c row
  | STORAGE_DEQUE => c ← column T std_deque rs col; Column_value c row
  | STORAGE_out_of_enum _ => Throw IllegalStateException
  end.

(** [template <class T> const T& value(const std::string& name, std::size_t row) const] *)
Definition value_T_byName (T : CppType) (rs : RecordSet) (name : string)
    (row : N) : result CppValue :=
  match storage (stmt rs) with
  | STORAGE_VECTOR
  | STORAGE_UNKNOWN =>
      c ← column_byName T std_vector rs name; Column_value c row
  | STORAGE_LIST =>
      c ← column_byName T std_list rs name; Column_value c row
  | STORAGE_DEQUE =>
      c ← column_byName T std_deque rs name; Column_value c row
  | STORAGE_out_of_enum _ => Throw IllegalStateException
  end.

(** Modelled from the spec: [DynamicAny value(std::size_t col, std::size_t row) const]
    (RecordSet.cpp is not among the sources) returns "a dynamically-typed
    value wrapper ..., performing the underlying typed extraction
    internally and boxing the result"; the extraction is made at the
    element type the column actually has. *)
Definition value_any (rs : RecordSet) (col row : N) : result DynamicAny :=
  match extractions (stmt rs) !! N.to_nat col with
  | Some e => Any <$> value_T (ext_T e) rs col row
  | None => Throw RangeException
  end.

(** Modelled from the spec: [DynamicAny value(const std::string& name, std::size_t row) const],
    the same through the name-to-position mapping of the execution
    context. *)
Definition value_any_byName (rs : RecordSet) (name : string) (row : N)
    : result DynamicAny :=
  m ← metaColumn_byName (stmt rs) name;
  value_any rs (mc_position m) row.

(** [DynamicAny value(const std::string& name)] *)
Definition value_cur_byName (rs : RecordSet) (name : string)
    : result DynamicAny :=
  value_any_byName rs name (_currentRow rs).

(** [DynamicAny value(std::size_t index)] *)
Definition value_cur (rs : RecordSet) (index : N) : result DynamicAny :=
  value_any rs index (_currentRow rs).

(** [bool isNull(const std::string& name)] *)
Definition isNull_byName (rs : RecordSet) (name : string) : result bool :=
  m ← metaColumn_byName (stmt rs) name;
  Statement_isNull (stmt rs) (mc_position m) (_currentRow rs).

(** Modelled from the spec: the header calls [isNull(index)] on a
    position; [Statement::isNull] is not among the sources, and the
    spec has [isNull(position)] "report column nullability state" for
    the value "at the current cursor row". *)
Definition isNull (rs : RecordSet) (index : N) : result bool :=
  Statement_isNull (stmt rs) index (_currentRow rs).

(** [template <typename C> DynamicAny nvl(const std::string& name, const C& deflt)];
    [deflt] is the value of type [C], [Any deflt] is [DynamicAny(deflt)]. *)
Definition nvl_byName (rs : RecordSet) (name : string) (deflt : CppValue)
    : result DynamicAny :=
  b ← isNull_byName rs name;
  if b : bool then OK (Any deflt) else value_cur_byName rs name.

(** [template <typename C> DynamicAny nvl(std::size_t index, const C& deflt)] *)
Definition nvl (rs : RecordSet) (index : N) (deflt : CppValue)
    : result DynamicAny :=
  b ← isNull rs index;
  if b : bool then OK (Any deflt) else value_cur rs index.

(** [MetaColumn::ColumnDataType columnType(std::size_t pos) const];
    [static_cast<UInt32>(pos)] keeps the low 32 bits. *)
Definition columnType (rs : RecordSet) (pos : N) : result ColumnDataType :=
  mc_type <$> metaColumn (stmt rs) (pos mod 2 ^ 32).

(** [MetaColumn::ColumnDataType columnType(const std::string& name) const] *)
Definition columnType_byName (rs : RecordSet) (name : string)
    : result ColumnDataType :=
  mc_type <$> metaColumn_byName (stmt rs) name.

(** [DynamicAny operator [] (const std::string& name)] *)
Definition index_op_byName (rs : RecordSet) (name : string)
    : result DynamicAny :=
  value_any_byName rs name (_currentRow rs).

(** [DynamicAny operator [] (std::size_t index)] *)
Definition index_op (rs : RecordSet) (index : N) : result DynamicAny :=
  value_any rs index (_currentRow rs).

(** [const std::string& columnName(std::size_t pos) const] *)
Definition columnName (rs : RecordSet) (pos : N) : result string :=
  mc_name <$> metaColumn (stmt rs) (pos mod 2 ^ 32).

(** [std::size_t columnLength(std::size_t pos) const] *)
Definition columnLength (rs : RecordSet) (pos : N) : result N :=
  mc_length <$> metaColumn (stmt rs) (pos mod 2 ^ 32).

(** [std::size_t columnLength(const std::string& name) const] *)
Definition columnLength_byName (rs : RecordSet) (name : string)
    : result N :=
  mc_length <$> metaColumn_byName (stmt rs) name.

(** [std::size_t columnPrecision(std::size_t pos) const] *)
Definition columnPrecision (rs : RecordSet) (pos : N) : result N :=
  mc_precision <$> metaColumn (stmt rs) (pos mod 2 ^ 32).

(** [std::size_t columnPrecision(const std::string& name) const] *)
Definition columnPrecision_byName (rs : RecordSet) (name : string)
    : result N :=
  mc_precision <$> metaColumn_byName (stmt rs) name.

(** [const RowIterator& end()]: the sentinel is created when [_pEnd] is
    null and handed out otherwise.  The constructor
    [RowIterator(RecordSet&, bool)] is declared in RowIterator.h, which
    is not among the sources; it is the argument [RowIterator_ctor].
    The result is the iterator and the record set after the call. *)
Definition end_ (RowIterator_ctor : RecordSet → bool → RowIterator)
    (rs : RecordSet) : RowIterator * RecordSet :=
  match _pEnd rs with
  | Some it => (it, rs)
  | None =>
      let it := RowIterator_ctor rs true in
      (it, mkRecordSet (stmt rs) (_currentRow rs) (_pBegin rs) (Some it)
             (_rowMap rs))
  end.

(** *** Cursor movement and row retrieval

    [moveFirst], [moveNext], [movePrevious], [moveLast] and [row] are
    declared in the header and defined in RecordSet.cpp, which is not
    among the sources.  Each returns the [bool] (or the [Row]) together
    with the record set after the call.  The spec's [cursor + 1] and
    [rowCount()-1] are read in [N]: where [cursor + 1 < rowCount()]
    holds the sum is below a [std::size_t] value, so advancing cannot
    overflow. *)

(** Modelled from the spec: "[moveFirst()]: sets cursor to 0; returns
    whether [rowCount() > 0]". *)
Definition moveFirst (rs : RecordSet) : result (bool * RecordSet) :=
  n ← rowCount rs;
  OK (0 <? n, set_currentRow rs 0).

(** Modelled from the spec: "[moveNext()]: if [cursor + 1 < rowCount()],
    advance and return true; else leave cursor unchanged at the last
    valid position and return false". *)
Definition moveNext (rs : RecordSet) : result (bool * RecordSet) :=
  n ← rowCount rs;
  if _currentRow rs + 1 <? n
  then OK (true, set_currentRow rs (_currentRow rs + 1))
  else OK (false, rs).

(** Modelled from the spec: "[movePrevious()]: symmetric backward form;
    returns false and leaves cursor at 0 if already at the first
    row". *)
Definition movePrevious (rs : RecordSet) : result (bool * RecordSet) :=
  if _currentRow rs =? 0 then OK (false, rs)
  else OK (true, set_currentRow rs (_currentRow rs - 1)).

(** Modelled from the spec: "[moveLast()]: sets cursor to
    [rowCount()-1]; returns whether [rowCount() > 0]"; the subtraction
    is the one of [N], so an empty result leaves the cursor at 0. *)
Definition moveLast (rs : RecordSet) : result (bool * RecordSet) :=
  n ← rowCount rs;
  OK (0 <? n, set_currentRow rs (n - 1)).

(** The values of row [pos] in the columns [cols], in order. *)
Fixpoint project (rs : RecordSet) (cols : list N) (pos : N)
    : result (list DynamicAny) :=
  match cols with
  | [] => OK []
  | c :: cs =>
      v ← value_any rs c pos;
      vs ← project rs cs pos;
      OK (v :: vs)
  end.

(** Modelled from the spec: "[row(pos)]: validate [pos] in range (else
    RangeError), return the cached Row for [pos], constructing and
    caching it on first access". *)
Definition row (rs : RecordSet) (pos : N) : result (Row * RecordSet) :=
  n ← rowCount rs;
  if n <=? pos then Throw RangeException
  else
    match _rowMap rs !! pos with
    | Some pRow => OK (pRow, rs)
    | None =>
        let cols := N.of_nat <$> seq 0 (length (extractions (stmt rs))) in
        vs ← project rs cols pos;
        let pRow := mkRow pos vs in
        OK (pRow, set_rowMap rs (<[pos := pRow]> (_rowMap rs)))
    end.

(** The caller's loop
    [if (rs.moveFirst()) do visit(cursor); while (rs.moveNext());]
    with the positions visited so far in [visited]; [None] when the
    fuel runs out before [moveNext] returns false. *)
Fixpoint visit_loop (fuel : nat) (rs : RecordSet) (visited : list N)
    : result (option (list N * RecordSet)) :=
  match fuel with
  | O => OK None
  | S fuel' =>
      '(more, rs') ← moveNext rs;
      if more : bool
      then visit_loop fuel' rs' (visited ++ [_currentRow rs'])
      else OK (Some (visited, rs'))
  end.

Definition traverse (fuel : nat) (rs : RecordSet)
    : result (option (list N * RecordSet)) :=
  '(some, rs') ← moveFirst rs;
  if some : bool
  then visit_loop fuel rs' [_currentRow rs']
  else OK (Some ([], rs')).

(** Modelled from the spec: "[begin()]: returns the lazily-created 'at
    first row' sentinel iterator (constructed once, reused across
    calls)"; [begin] is defined in RecordSet.cpp, which is not among the
    sources, and the constructor of [RowIterator] is an argument as for
    [end_]. *)
Definition begin_ (RowIterator_ctor : RecordSet → bool → RowIterator)
    (rs : RecordSet) : RowIterator * RecordSet :=
  match _pBegin rs with
  | Some it => (it, rs)
  | None =>
      let it := RowIterator_ctor rs false in
      (it, mkRecordSet (stmt rs) (_currentRow rs) (Some it) (_pEnd rs)
             (_rowMap rs))
  end.

End RecordSet.

(** ** The contract of the execution context *)

(** Modelled from the spec: an "already-executed statement" whose
    execution context reports [rowsHandled] rows: "[numOfRowsHandled()]
    per extraction entry; all entries must report the same value", and
    for every column "[values.size() == rowsHandled]".  The code that
    executes a statement and fills its extractions is not among the
    sources. *)
Definition executed (s : Statement) (rowsHandled : N) : Prop :=
  Forall (fun e => numOfRowsHandled e = rowsHandled
                   ∧ N.of_nat (length (col_data (ext_column e))) = rowsHandled)
         (extractions s).

(** [reachable s rs]: [rs] is a record set a caller can obtain, and [s]
    is the statement it was last bound to, by the constructor or by
    [operator =].  The header takes any [Statement]; from there on every
    member function is a step: the cursor movements, [row], [begin] and
    [end]. *)
Inductive reachable : Statement → RecordSet → Prop :=
  | reach_new s :
      reachable s (RecordSet_new s)
  | reach_assign s0 rs s :
      reachable s0 rs → reachable s (RecordSet.assign rs s)
  | reach_moveFirst s rs b rs' :
      reachable s rs → RecordSet.moveFirst rs = OK (b, rs') →
      reachable s rs'
  | reach_moveNext s rs b rs' :
      reachable s rs → RecordSet.moveNext rs = OK (b, rs') →
      reachable s rs'
  | reach_movePrevious s rs b rs' :
      reachable s rs → RecordSet.movePrevious rs = OK (b, rs') →
      reachable s rs'
  | reach_moveLast s rs b rs' :
      reachable s rs → RecordSet.moveLast rs = OK (b, rs') →
      reachable s rs'
  | reach_row s rs pos r rs' :
      reachable s rs → RecordSet.row rs pos = OK (r, rs') →
      reachable s rs'
  | reach_begin s rs ctor :
      reachable s rs → reachable s (snd (RecordSet.begin_ ctor rs))
  | reach_end s rs ctor :
      reachable s rs → reachable s (snd (RecordSet.end_ ctor rs)).

(** ** Vocabulary of the statements below *)

(** The record set [rs] with the storage tag of its statement replaced. *)
Definition with_storage (rs : RecordSet) (st : Storage) : RecordSet :=
  mkRecordSet
    (mkStatement st (extractions (stmt rs)) (metaColumns (stmt rs)))
    (_currentRow rs) (_pBegin rs) (_pEnd rs) (_rowMap rs).

(** The name of entry [e] compares equal to [name] under [icompare]. *)
Definition name_matches (name : string) (e : AbstractExtraction) : Prop :=
  PocoString.icompare name (Column_name (ext_column e)) = 0%Z.

(** Entry [e] is a match of the typed lookup [columnPosition<T,C>(name)]:
    its dynamic type is [InternalExtraction<T,C>] and its name compares
    equal to [name]. *)
Definition typed_match (T : CppType) (C : Container) (name : string)
    (e : AbstractExtraction) : Prop :=
  ext_T e = T ∧ ext_C e = C ∧ name_matches name e.

#[global] Instance name_matches_dec name e : Decision (name_matches name e).
Proof. unfold name_matches. apply _. Defined.

#[global] Instance typed_match_dec T C name e :
  Decision (typed_match T C name e).
Proof. unfold typed_match. apply _. Defined.

(** The container whose column accessor the [switch] of [value<T>]
    selects for a storage tag; none for a tag outside the enumeration. *)
Definition container_of_storage (st : Storage) : option Container :=
  match st with
  | STORAGE_VECTOR | STORAGE_UNKNOWN => Some std_vector
  | STORAGE_LIST => Some std_list
  | STORAGE_DEQUE => Some std_deque
  | STORAGE_out_of_enum _ => None
  end.

(** Every column's [position()] is its index in the extraction set. *)
Definition positions_aligned (s : Statement) : Prop :=
  ∀ (i : nat) e, extractions s !! i = Some e →
                 Column_position (ext_column e) = N.of_nat i.

(** The positions [c+1, ..., c+k]. *)
Definition positions_after (c : N) (k : nat) : list N :=
  (fun i => c + 1 + N.of_nat i) <$> seq 0 k.

(** ** Concrete record sets *)

Module Examples.

Definition mc_id : MetaColumn := mkMetaColumn "id" 0 FDT_INT32 4 0 false.
Definition mc_name_ : MetaColumn := mkMetaColumn "name" 1 FDT_STRING 32 0 true.

Definition ext_id : AbstractExtraction :=
  mkExtraction T_Int32 std_vector
    (mkColumn mc_id [V_int 1; V_int 2; V_int 3]) 3 [false; false; false].

(** The third name is NULL: the stored value is the default string. *)
Definition ext_name : AbstractExtraction :=
  mkExtraction T_string std_vector
    (mkColumn mc_name_ [V_string "a"; V_string "b"; V_string EmptyString]) 3
    [false; false; true].

(** The 3-row, 2-column result of the specification's scenario. *)
Definition people : Statement :=
  mkStatement STORAGE_VECTOR [ext_id; ext_name] [mc_id; mc_name_].

(** A one-row statement with the single column "id". *)
Definition single : Statement :=
  mkStatement STORAGE_VECTOR
    [mkExtraction T_Int32 std_vector (mkColumn mc_id [V_int 7]) 1 [false]]
    [mc_id].

(** A statement without extractions. *)
Definition no_columns : Statement := mkStatement STORAGE_VECTOR [] [].

(** A statement whose storage tag is [STORAGE_UNKNOWN]. *)
Definition people_unknown : Statement :=
  mkStatement STORAGE_UNKNOWN [ext_id; ext_name] [mc_id; mc_name_].

Definition rs_people : RecordSet := RecordSet_new people.

(** The row that [row(0)] builds and caches on the scenario's record
    set, and the record set after that call. *)
Definition people_row0 : Row := mkRow 0 [Any (V_int 1); Any (V_string "a")].

Definition rs_people_cached : RecordSet :=
  set_rowMap rs_people {[ 0 := people_row0 ]}.

(** The scenario's columns in the other order, each still carrying the
    position it has in [people]: "name" (position 1) is found at index 0
    and "id" (position 0) at index 1. *)
Definition people_swapped : Statement :=
  mkStatement STORAGE_VECTOR [ext_name; ext_id] [mc_id; mc_name_].

(** The scenario's columns under the storage tag [STORAGE_LIST]. *)
Definition people_list_tag : Statement :=
  mkStatement STORAGE_LIST [ext_id; ext_name] [mc_id; mc_name_].

(** A constructor for the iterator sentinels. *)
Definition sentinel (rs : RecordSet) (positionEnd : bool) : RowIterator :=
  mkRowIterator (_currentRow rs) positionEnd.

(** A column of five rows. *)
Definition mc_score : MetaColumn := mkMetaColumn "score" 1 FDT_INT32 4 0 false.

Definition ext_score : AbstractExtraction :=
  mkExtraction T_Int32 std_vector
    (mkColumn mc_score [V_int 9; V_int 8; V_int 7; V_int 6; V_int 5]) 5
    [false; false; false; false; false].

(** A statement whose entries report 3 and 5 rows handled. *)
Definition uneven : Statement :=
  mkStatement STORAGE_VECTOR [ext_id; ext_score] [mc_id; mc_score].

(** Two columns whose names differ in letter case only: "x" stores
    [Int32] values, "X" stores strings. *)
Definition mc_x : MetaColumn := mkMetaColumn "x" 0 FDT_INT32 4 0 false.
Definition mc_X : MetaColumn := mkMetaColumn "X" 1 FDT_STRING 32 0 false.

Definition ext_x : AbstractExtraction :=
  mkExtraction T_Int32 std_vector (mkColumn mc_x [V_int 1]) 1 [false].

Definition ext_X : AbstractExtraction :=
  mkExtraction T_string std_vector (mkColumn mc_X [V_string "one"]) 1 [false].

Definition same_name : Statement :=
  mkStatement STORAGE_VECTOR [ext_x; ext_X] [mc_x; mc_X].

(** The scenario's record set with the cursor on the last row. *)
Definition rs_people_last : RecordSet := set_currentRow rs_people 2.

(** The same after a call of [end()]. *)
Definition rs_people_last_end : RecordSet :=
  snd (RecordSet.end_ sentinel rs_people_last).

(** The record set over [uneven], after a call of [end()]. *)
Definition rs_uneven : RecordSet :=
  snd (RecordSet.end_ sentinel (RecordSet_new uneven)).

(** The record set over [same_name]. *)
Definition rs_same_name : RecordSet := RecordSet_new same_name.

End Examples.

(** ** Basic facts about the embedding *)

Section BasicFacts.

Import RecordSet.

Lemma result_bind_OK {A B} (m : result A) (f : A → result B) (b : B) :
  m ≫= f = OK b → ∃ a, m = OK a ∧ f a = OK b.
Proof. destruct m as [a|e]; [eauto | discriminate]. Qed.

Lemma rowCount_nil (rs : RecordSet) :
  extractions (stmt rs) = [] →
  rowCount rs = Throw AssertionViolationException.
Proof. unfold rowCount. intros ->. reflexivity. Qed.

Lemma rowCount_cons (rs : RecordSet) e rest :
  extractions (stmt rs) = e :: rest →
  rowCount rs = OK (numOfRowsHandled e).
Proof. unfold rowCount. intros ->. reflexivity. Qed.

Lemma rowCount_in_bounds (rs : RecordSet) :
  rowCount rs ≠ Throw out_of_bounds_access.
Proof.
  destruct (extractions (stmt rs)) as [|e rest] eqn:E.
  - rewrite (rowCount_nil rs E). discriminate.
  - rewrite (rowCount_cons rs e rest E). discriminate.
Qed.

Lemma rowCount_stmt (rs rs' : RecordSet) :
  stmt rs' = stmt rs → rowCount rs' = rowCount rs.
Proof. unfold rowCount. intros ->. reflexivity. Qed.

Lemma rowCount_OK_inv (rs : RecordSet) n :
  rowCount rs = OK n →
  ∃ e rest, extractions (stmt rs) = e :: rest ∧ numOfRowsHandled e = n.
Proof.
  destruct (extractions (stmt rs)) as [|e rest] eqn:E.
  - rewrite (rowCount_nil _ E). discriminate.
  - rewrite (rowCount_cons _ _ _ E). intros [= <-]. eauto.
Qed.

Lemma column_out_of_range T C (rs : RecordSet) pos :
  columnCount rs <= pos → column T C rs pos = Throw RangeException.
Proof.
  unfold columnCount, column. intros H.
  destruct (0 =? _); [reflexivity|].
  destruct (N.leb_spec (N.of_nat (length (extractions (stmt rs)))) pos);
    [reflexivity | lia].
Qed.

Lemma column_in_range T C (rs : RecordSet) pos e :
  extractions (stmt rs) !! N.to_nat pos = Some e →
  column T C rs pos =
    match dynamic_cast T C e with
    | Some p => OK (ext_column p)
    | None => Throw BadCastException
    end.
Proof.
  intros H. pose proof (lookup_lt_Some _ _ _ H) as Hlt.
  unfold column. rewrite H.
  destruct (N.eqb_spec 0 (N.of_nat (length (extractions (stmt rs)))));
    [lia|].
  destruct (N.leb_spec (N.of_nat (length (extractions (stmt rs)))) pos);
    [lia | reflexivity].
Qed.

Lemma column_not_IllegalState T C (rs : RecordSet) pos :
  column T C rs pos ≠ Throw IllegalStateException.
Proof.
  unfold column. repeat case_match; discriminate.
Qed.

Lemma column_in_bounds T C (rs : RecordSet) pos :
  column T C rs pos ≠ Throw out_of_bounds_access.
Proof.
  destruct (N.le_gt_cases (columnCount rs) pos) as [Hge|Hlt].
  - rewrite (column_out_of_range T C rs pos Hge). discriminate.
  - unfold columnCount in Hlt.
    destruct (lookup_lt_is_Some_2 (extractions (stmt rs)) (N.to_nat pos))
      as [e He]; [lia|].
    rewrite (column_in_range T C rs pos e He).
    destruct (dynamic_cast T C e); discriminate.
Qed.

Lemma column_not_NotFound T C (rs : RecordSet) pos :
  column T C rs pos ≠ Throw NotFoundException.
Proof.
  unfold column. repeat case_match; discriminate.
Qed.

Lemma Column_value_not_IllegalState c row :
  Column_value c row ≠ Throw IllegalStateException.
Proof. unfold Column_value. case_match; discriminate. Qed.

Lemma dynamic_cast_Some T C e p :
  dynamic_cast T C e = Some p ↔ p = e ∧ ext_T e = T ∧ ext_C e = C.
Proof.
  unfold dynamic_cast.
  destruct (decide (ext_T e = T ∧ ext_C e = C)) as [[HT HC]|Hn]; split.
  - intros [= <-]. auto.
  - intros (-> & _ & _). reflexivity.
  - discriminate.
  - intros (_ & HT & HC). destruct Hn. auto.
Qed.

Lemma dynamic_cast_None T C e :
  dynamic_cast T C e = None ↔ ext_T e ≠ T ∨ ext_C e ≠ C.
Proof.
  unfold dynamic_cast.
  destruct (decide (ext_T e = T ∧ ext_C e = C)) as [[HT HC]|Hn]; split.
  - discriminate.
  - intros [H|H]; contradiction.
  - intros _. destruct (decide (ext_T e = T)) as [HT|HT]; [|left; exact HT].
    right. intros HC. apply Hn. auto.
  - reflexivity.
Qed.

End BasicFacts.

(** ** Row count (C10) and rebinding (C1) *)

Section RowCountAndAssignment.

Import RecordSet Examples.

(** C10. [rowCount()] asserts that the extraction set has at least one
    entry and then returns what the first entry reports as handled:
    with no column the assertion fails (and the result is not 0), so
    that the first entry is never read from an empty extraction set;
    with a first entry [e] the result is [numOfRowsHandled e] whatever
    the remaining entries are, so two record sets whose extraction sets
    start with the same entry have the same row count. *)
Theorem rowCount_asserts_and_reads_first_entry :
  (∀ rs : RecordSet, extractions (stmt rs) = [] →
     rowCount rs = Throw AssertionViolationException ∧ rowCount rs ≠ OK 0)
  ∧ (∀ rs : RecordSet, rowCount rs ≠ Throw out_of_bounds_access)
  ∧ (∀ (rs : RecordSet) e rest, extractions (stmt rs) = e :: rest →
     rowCount rs = OK (numOfRowsHandled e))
  ∧ (∀ (rs1 rs2 : RecordSet) e rest1 rest2,
     extractions (stmt rs1) = e :: rest1 →
     extractions (stmt rs2) = e :: rest2 →
     rowCount rs1 = rowCount rs2).
Proof.
  split; [|split; [|split]].
  - intros rs H. rewrite (rowCount_nil rs H). split; [reflexivity | discriminate].
  - apply rowCount_in_bounds.
  - intros rs e rest H. apply (rowCount_cons rs e rest H).
  - intros rs1 rs2 e rest1 rest2 H1 H2.
    rewrite (rowCount_cons _ _ _ H1), (rowCount_cons _ _ _ H2). reflexivity.
Qed.

Lemma rowCount_asserts_and_reads_first_entry_witness :
  rowCount (RecordSet_new no_columns) = Throw AssertionViolationException
  ∧ rowCount rs_people = OK 3
  ∧ rowCount rs_people = rowCount (RecordSet_new (mkStatement STORAGE_LIST [ext_id] [])).
Proof.
  destruct rowCount_asserts_and_reads_first_entry
    as (Hnil & _ & Hcons & Hrest).
  split; [|split].
  - apply (Hnil (RecordSet_new no_columns)). reflexivity.
  - apply (Hcons rs_people ext_id [ext_name]). reflexivity.
  - apply (Hrest rs_people _ ext_id [ext_name] []); reflexivity.
Defined.

Lemma assign_currentRow (rs : RecordSet) s : _currentRow (assign rs s) = 0.
Proof. reflexivity. Qed.

Lemma assign_stmt (rs : RecordSet) s : stmt (assign rs s) = s.
Proof. reflexivity. Qed.

Lemma assign_rowMap (rs : RecordSet) s : _rowMap (assign rs s) = _rowMap rs.
Proof. reflexivity. Qed.

(** C1, the code at a record set with one cached row.  After [row(0)]
    on the three-row scenario the cache holds the row built from that
    statement; rebinding the record set to the one-row statement
    [single] resets the cursor and replaces the statement, but the
    cache still holds that row, and [row(0)] hands it out again
    although row 0 of the new statement is [(7)]. *)
Theorem assign_leaves_row_cache_in_place :
  row rs_people 0 = OK (people_row0, rs_people_cached)
  ∧ _currentRow (assign rs_people_cached single) = 0
  ∧ stmt (assign rs_people_cached single) = single
  ∧ _rowMap (assign rs_people_cached single) !! 0 = Some people_row0
  ∧ _rowMap (assign rs_people_cached single) ≠ ∅
  ∧ fst <$> row (assign rs_people_cached single) 0 = OK people_row0
  ∧ fst <$> row (RecordSet_new single) 0 = OK (mkRow 0 [Any (V_int 7)]).
Proof.
  repeat split; try reflexivity.
  intros H. apply (f_equal (fun m : gmap N Row => m !! 0)) in H.
  rewrite assign_rowMap in H. discriminate H.
Qed.

End RowCountAndAssignment.

(** ** Range checks (C6) *)

Section RangeChecks.

Import RecordSet Examples.

Lemma row_out_of_range (rs : RecordSet) n pos :
  rowCount rs = OK n → n <= pos → row rs pos = Throw RangeException.
Proof.
  intros Hn Hle. unfold row. rewrite Hn. simpl.
  destruct (N.leb_spec n pos); [reflexivity | lia].
Qed.

(** C6. A position at or beyond [columnCount()] makes [column<T,C>(pos)]
    throw [RangeException], and, the row count being [n], a position at
    or beyond [n] makes [row(pos)] throw [RangeException]; positions
    are unsigned, so these are all positions outside [[0, count)].  In
    particular [column<T,C>(columnCount())] and [row(rowCount())]
    throw [RangeException]. *)
Theorem out_of_range_access_throws_RangeException
    T C (rs : RecordSet) (pos : N) :
  (columnCount rs <= pos → column T C rs pos = Throw RangeException)
  ∧ (∀ n, rowCount rs = OK n → n <= pos →
       row rs pos = Throw RangeException)
  ∧ column T C rs (columnCount rs) = Throw RangeException
  ∧ (∀ n, rowCount rs = OK n → row rs n = Throw RangeException).
Proof.
  repeat split.
  - apply column_out_of_range.
  - intros n. apply row_out_of_range.
  - apply column_out_of_range. lia.
  - intros n Hn. apply (row_out_of_range rs n n Hn). lia.
Qed.

Lemma out_of_range_access_throws_RangeException_witness :
  column T_Int32 std_vector rs_people 5 = Throw RangeException
  ∧ row rs_people 4 = Throw RangeException
  ∧ column T_Int32 std_vector rs_people 2 = Throw RangeException
  ∧ row rs_people 3 = Throw RangeException.
Proof.
  destruct (out_of_range_access_throws_RangeException
              T_Int32 std_vector rs_people 5) as (Hc & _ & Hcc & Hrr).
  destruct (out_of_range_access_throws_RangeException
              T_Int32 std_vector rs_people 4) as (_ & Hr & _ & _).
  split; [|split; [|split]].
  - apply Hc. vm_compute. discriminate.
  - apply (Hr 3); [reflexivity | vm_compute; discriminate].
  - exact Hcc.
  - apply (Hrr 3). reflexivity.
Defined.

End RangeChecks.

(** ** Storage dispatch (C8, C9) *)

Section StorageDispatch.

Import RecordSet Examples.

Lemma column_with_storage T C (rs : RecordSet) st pos :
  column T C (with_storage rs st) pos = column T C rs pos.
Proof. reflexivity. Qed.

(** C8. [value<T>(col, row)] and [value<T>(name, row)] go through the
    column accessor of the container the storage tag names:
    [std::vector] for [STORAGE_VECTOR], [std::list] for [STORAGE_LIST],
    [std::deque] for [STORAGE_DEQUE]; a tag that is none of the
    enumerators makes both throw [IllegalStateException], whatever the
    column and the row are. *)
Theorem value_dispatches_on_storage
    T (rs : RecordSet) (col : N) (name : string) (row : N) :
  (storage (stmt rs) = STORAGE_VECTOR →
     value_T T rs col row
       = (column T std_vector rs col ≫= fun c => Column_value c row)
     ∧ value_T_byName T rs name row
       = (column_byName T std_vector rs name ≫= fun c => Column_value c row))
  ∧ (storage (stmt rs) = STORAGE_LIST →
     value_T T rs col row
       = (column T std_list rs col ≫= fun c => Column_value c row)
     ∧ value_T_byName T rs name row
       = (column_byName T std_list rs name ≫= fun c => Column_value c row))
  ∧ (storage (stmt rs) = STORAGE_DEQUE →
     value_T T rs col row
       = (column T std_deque rs col ≫= fun c => Column_value c row)
     ∧ value_T_byName T rs name row
       = (column_byName T std_deque rs name ≫= fun c => Column_value c row))
  ∧ (∀ raw, storage (stmt rs) = STORAGE_out_of_enum raw →
     value_T T rs col row = Throw IllegalStateException
     ∧ value_T_byName T rs name row = Throw IllegalStateException).
Proof.
  unfold value_T, value_T_byName.
  split; [|split; [|split]];
    [intros -> | intros -> | intros -> | intros raw ->];
    split; reflexivity.
Qed.

Lemma value_dispatches_on_storage_witness :
  value_T T_Int32 rs_people 0 1 = OK (V_int 2)
  ∧ value_T T_Int32 (with_storage rs_people STORAGE_LIST) 0 1
    = Throw BadCastException
  ∧ value_T_byName T_Int32 (with_storage rs_people STORAGE_DEQUE) "id" 1
    = Throw NotFoundException
  ∧ value_T T_Int32 (with_storage rs_people (STORAGE_out_of_enum 9)) 0 1
    = Throw IllegalStateException.
Proof.
  split; [|split; [|split]].
  - destruct (value_dispatches_on_storage T_Int32 rs_people 0 "id" 1)
      as (H & _). destruct (H eq_refl) as [-> _]. reflexivity.
  - destruct (value_dispatches_on_storage T_Int32
                (with_storage rs_people STORAGE_LIST) 0 "id" 1)
      as (_ & H & _). destruct (H eq_refl) as [-> _]. reflexivity.
  - destruct (value_dispatches_on_storage T_Int32
                (with_storage rs_people STORAGE_DEQUE) 0 "id" 1)
      as (_ & _ & H & _). destruct (H eq_refl) as [_ ->]. reflexivity.
  - destruct (value_dispatches_on_storage T_Int32
                (with_storage rs_people (STORAGE_out_of_enum 9)) 0 "id" 1)
      as (_ & _ & _ & H). destruct (H 9%Z eq_refl) as [-> _]. reflexivity.
Defined.

(** C9. With the tag [STORAGE_UNKNOWN], [value<T>(col, row)] is the
    access through the [std::vector] column accessor, the same result
    as with the tag [STORAGE_VECTOR], and it does not throw
    [IllegalStateException]. *)
Theorem value_with_unknown_storage_is_vector_access
    T (rs : RecordSet) (col row : N) :
  storage (stmt rs) = STORAGE_UNKNOWN →
  value_T T rs col row
    = (column T std_vector rs col ≫= fun c => Column_value c row)
  ∧ value_T T rs col row
    = value_T T (with_storage rs STORAGE_VECTOR) col row
  ∧ value_T T rs col row ≠ Throw IllegalStateException.
Proof.
  intros Hst. unfold value_T. rewrite Hst. simpl.
  rewrite column_with_storage.
  repeat split.
  pose proof (column_not_IllegalState T std_vector rs col) as Hc.
  destruct (column T std_vector rs col) as [c|e]; simpl.
  - apply Column_value_not_IllegalState.
  - intros [= ->]. apply Hc. reflexivity.
Qed.

Lemma value_with_unknown_storage_is_vector_access_witness :
  value_T T_Int32 (RecordSet_new people_unknown) 0 2
    = value_T T_Int32 rs_people 0 2
  ∧ value_T T_Int32 (RecordSet_new people_unknown) 0 2
    ≠ Throw IllegalStateException.
Proof.
  destruct (value_with_unknown_storage_is_vector_access
              T_Int32 (RecordSet_new people_unknown) 0 2 eq_refl)
    as (_ & H2 & H3).
  split; [exact H2 | exact H3].
Defined.

End StorageDispatch.

(** ** NULL coalescing (C7) *)

Section NullCoalescing.

Import RecordSet Examples.

(** C7. When the column is NULL at the cursor row, [nvl] returns
    [DynamicAny(deflt)]; when it is not, [nvl] returns what [value]
    returns for that column at the cursor row, in which [deflt] does
    not occur.  Both hold by name and by position, and [deflt] is any
    value, of whatever type. *)
Theorem nvl_returns_default_exactly_on_NULL
    (rs : RecordSet) (name : string) (index : N) (deflt : CppValue) :
  (isNull_byName rs name = OK true →
     nvl_byName rs name deflt = OK (Any deflt))
  ∧ (isNull_byName rs name = OK false →
     nvl_byName rs name deflt = value_any_byName rs name (_currentRow rs))
  ∧ (isNull rs index = OK true →
     nvl rs index deflt = OK (Any deflt))
  ∧ (isNull rs index = OK false →
     nvl rs index deflt = value_any rs index (_currentRow rs)).
Proof.
  unfold nvl_byName, nvl, value_cur_byName, value_cur.
  split; [|split; [|split]]; intros ->; reflexivity.
Qed.

Lemma nvl_returns_default_exactly_on_NULL_witness :
  moveLast rs_people = OK (true, rs_people_last)
  ∧ nvl_byName rs_people_last "NAME" (V_int 5) = OK (Any (V_int 5))
  ∧ nvl_byName rs_people_last "id" (V_string "x") = OK (Any (V_int 3))
  ∧ nvl rs_people_last 1 (V_string "x") = OK (Any (V_string "x"))
  ∧ nvl rs_people_last 0 (V_string "x") = OK (Any (V_int 3)).
Proof.
  split; [reflexivity|].
  destruct (nvl_returns_default_exactly_on_NULL
              rs_people_last "NAME" 1 (V_int 5)) as (H1 & _ & _ & _).
  destruct (nvl_returns_default_exactly_on_NULL
              rs_people_last "id" 1 (V_string "x")) as (_ & H2 & H3 & _).
  destruct (nvl_returns_default_exactly_on_NULL
              rs_people_last "id" 0 (V_string "x")) as (_ & _ & _ & H4).
  split; [|split; [|split]].
  - apply H1. reflexivity.
  - rewrite H2; reflexivity.
  - apply H3. reflexivity.
  - rewrite H4; reflexivity.
Defined.

End NullCoalescing.

(** ** Name resolution (C5) and type mismatches (C2) *)

Section NameResolution.

Import RecordSet Examples PocoString.

Lemma icompare_zero_iff_lower (a b : string) :
  icompare a b = 0%Z ↔ lower a = lower b.
Proof.
  revert b. induction a as [|x a IH]; intros [|y b]; simpl;
    try (split; [discriminate | discriminate]); [tauto|].
  destruct (N.ltb_spec (N_of_ascii (toLower x)) (N_of_ascii (toLower y)))
    as [Hlt|Hge].
  { split; [discriminate|]. intros [= Hxy _]. rewrite Hxy in Hlt. lia. }
  destruct (N.ltb_spec (N_of_ascii (toLower y)) (N_of_ascii (toLower x)))
    as [Hgt|Hle].
  { split; [discriminate|]. intros [= Hxy _]. rewrite Hxy in Hgt. lia. }
  assert (toLower x = toLower y) as Hxy.
  { rewrite <- (ascii_N_embedding (toLower x)),
            <- (ascii_N_embedding (toLower y)).
    f_equal. lia. }
  rewrite IH. split.
  - intros ->. rewrite Hxy. reflexivity.
  - intros [= _ H]. exact H.
Qed.

Lemma icompare_lower_eq (n1 n2 s : string) :
  lower n1 = lower n2 → icompare n1 s = 0%Z ↔ icompare n2 s = 0%Z.
Proof. intros H. rewrite !icompare_zero_iff_lower, H. reflexivity. Qed.

Lemma columnPosition_loop_lower T C (n1 n2 : string) it :
  lower n1 = lower n2 →
  columnPosition_loop T C n1 it = columnPosition_loop T C n2 it.
Proof.
  intros H. induction it as [|e rest IH]; simpl; [reflexivity|].
  destruct (dynamic_cast T C e) as [p|]; [|exact IH].
  pose proof (icompare_lower_eq n1 n2 (Column_name (ext_column p)) H) as Hi.
  destruct (decide (0%Z = icompare n1 (Column_name (ext_column p))));
    destruct (decide (0%Z = icompare n2 (Column_name (ext_column p))));
    try reflexivity; try exact IH.
  - exfalso. apply n. symmetry. apply Hi. symmetry. assumption.
  - exfalso. apply n. symmetry. apply Hi. symmetry. assumption.
Qed.

Lemma columnPosition_loop_step T C name e rest :
  columnPosition_loop T C name (e :: rest) =
    if decide (typed_match T C name e)
    then OK (Column_position (ext_column e))
    else columnPosition_loop T C name rest.
Proof.
  simpl. unfold typed_match, name_matches.
  destruct (dynamic_cast T C e) as [p|] eqn:Hc.
  - apply dynamic_cast_Some in Hc as (-> & HT & HC).
    destruct (decide (0%Z = icompare name (Column_name (ext_column e))))
      as [H0|H0].
    + rewrite decide_True; [reflexivity|]. auto.
    + rewrite decide_False; [reflexivity|].
      intros (_ & _ & H). apply H0. symmetry. exact H.
  - apply dynamic_cast_None in Hc.
    rewrite decide_False; [reflexivity|].
    intros (HT & HC & _). destruct Hc; contradiction.
Qed.

Lemma columnPosition_loop_OK T C name it p :
  columnPosition_loop T C name it = OK p ↔
  ∃ pre e post, it = pre ++ e :: post
    ∧ Forall (fun e' => ¬ typed_match T C name e') pre
    ∧ typed_match T C name e
    ∧ p = Column_position (ext_column e).
Proof.
  induction it as [|x rest IH].
  - simpl. split; [discriminate|].
    intros (pre & e & post & H & _). destruct pre; discriminate H.
  - rewrite columnPosition_loop_step.
    destruct (decide (typed_match T C name x)) as [Hm|Hm].
    + split.
      * intros [= <-]. exists [], x, rest. auto.
      * intros (pre & e & post & Heq & Hpre & He & ->).
        destruct pre as [|y pre]; simpl in Heq.
        -- injection Heq as -> _. reflexivity.
        -- injection Heq as -> _. inversion Hpre; contradiction.
    + rewrite IH. split.
      * intros (pre & e & post & -> & Hpre & He & ->).
        exists (x :: pre), e, post. auto.
      * intros (pre & e & post & Heq & Hpre & He & ->).
        destruct pre as [|y pre]; simpl in Heq.
        -- injection Heq as -> _. contradiction.
        -- injection Heq as -> ->. inversion Hpre; subst.
           exists pre, e, post. auto.
Qed.

Lemma columnPosition_loop_NotFound T C name it :
  columnPosition_loop T C name it = Throw NotFoundException ↔
  Forall (fun e => ¬ typed_match T C name e) it.
Proof.
  induction it as [|x rest IH].
  - simpl. split; auto.
  - rewrite columnPosition_loop_step.
    destruct (decide (typed_match T C name x)) as [Hm|Hm].
    + split; [discriminate|]. inversion 1; contradiction.
    + rewrite IH. split; [auto|]. inversion 1; assumption.
Qed.

(** C5 at a concrete input.  The extraction set holds the columns "x"
    ([Int32]) and "X" (strings), in this order.  Both names compare
    equal to "x", so the first match by name is the entry at ordinal 0,
    of position 0; yet [columnPosition<std::string, std::vector>("x")]
    returns 1, the position of the second.  And on the scenario's
    record set [columnPosition<Int32, std::vector>("name")] throws
    [NotFoundException] although a column bears the name. *)
Lemma columnPosition_first_name_match_does_not_win :
  extractions (stmt rs_same_name) = [ext_x; ext_X]
  ∧ name_matches "x" ext_x
  ∧ Column_position (ext_column ext_x) = 0
  ∧ columnPosition T_string std_vector rs_same_name "x" = OK 1
  ∧ columnPosition T_string std_vector rs_same_name "x"
    ≠ OK (Column_position (ext_column ext_x))
  ∧ ext_name ∈ extractions (stmt rs_people)
  ∧ name_matches "name" ext_name
  ∧ columnPosition T_Int32 std_vector rs_people "name"
    = Throw NotFoundException.
Proof.
  split; [reflexivity|]. split; [reflexivity|]. split; [reflexivity|].
  split; [reflexivity|]. split; [discriminate|].
  split; [apply list_elem_of_In; simpl; auto|].
  split; reflexivity.
Qed.

(** C5, amended.  [columnPosition<T,C>(name)] scans the extraction set
    in order and looks only at the entries that are an
    [InternalExtraction<T,C>]; their names are compared with [name]
    without regard to letter case (names compare equal exactly when
    they agree after lowering the case of every letter).  The first
    such entry whose name compares equal wins: the call returns [p]
    exactly when some entry is such a match, no entry before it is, and
    [p] is the position of its column; in particular the first column
    that bears the name wins whenever it is a [Column<T,C>].  The call
    throws [NotFoundException] exactly when no entry is such a match,
    as when no column bears the name at all.  Two names that differ
    only in letter case give the same result, for [columnPosition] and
    for [column<T,C>(name)]. *)
Theorem columnPosition_first_match_ignoring_case
    T C (rs : RecordSet) :
  (∀ name e, name_matches name e ↔
             lower name = lower (Column_name (ext_column e)))
  ∧ (∀ name p, columnPosition T C rs name = OK p ↔
       ∃ pre e post, extractions (stmt rs) = pre ++ e :: post
         ∧ Forall (fun e' => ¬ typed_match T C name e') pre
         ∧ typed_match T C name e
         ∧ p = Column_position (ext_column e))
  ∧ (∀ name pre e post,
       extractions (stmt rs) = pre ++ e :: post →
       Forall (fun e' => ¬ name_matches name e') pre →
       name_matches name e → ext_T e = T → ext_C e = C →
       columnPosition T C rs name = OK (Column_position (ext_column e)))
  ∧ (∀ name,
       columnPosition T C rs name = Throw NotFoundException ↔
       Forall (fun e => ¬ typed_match T C name e) (extractions (stmt rs)))
  ∧ (∀ name,
       (∀ e, e ∈ extractions (stmt rs) → ¬ name_matches name e) →
       columnPosition T C rs name = Throw NotFoundException)
  ∧ (∀ name1 name2, lower name1 = lower name2 →
       columnPosition T C rs name1 = columnPosition T C rs name2
       ∧ column_byName T C rs name1 = column_byName T C rs name2).
Proof.
  split; [|split; [|split; [|split; [|split]]]].
  - intros name e. apply icompare_zero_iff_lower.
  - intros name p. apply columnPosition_loop_OK.
  - intros name pre e post Hsplit Hpre Hn HT HC.
    apply columnPosition_loop_OK. exists pre, e, post.
    split; [exact Hsplit|]. split; [|split; [|reflexivity]].
    + apply (Forall_impl _ _ _ Hpre). intros x Hx (_ & _ & Hm). exact (Hx Hm).
    + split; [exact HT|]. split; [exact HC | exact Hn].
  - intros name. apply columnPosition_loop_NotFound.
  - intros name Hno. apply columnPosition_loop_NotFound.
    apply Forall_forall. intros e He (_ & _ & Hn). exact (Hno e He Hn).
  - intros name1 name2 H.
    assert (columnPosition T C rs name1 = columnPosition T C rs name2) as E
      by apply (columnPosition_loop_lower T C name1 name2 _ H).
    split; [exact E|]. unfold column_byName. rewrite E. reflexivity.
Qed.

Lemma columnPosition_first_match_ignoring_case_witness :
  columnPosition T_string std_vector rs_people "NAME" = OK 1
  ∧ columnPosition T_string std_vector rs_people "zip"
    = Throw NotFoundException
  ∧ columnPosition T_string std_vector rs_people "Name"
    = columnPosition T_string std_vector rs_people "nAME"
  ∧ columnPosition T_string std_vector rs_people "Name" = OK 1
  ∧ columnPosition T_Int32 std_vector rs_people "name"
    = Throw NotFoundException.
Proof.
  destruct (columnPosition_first_match_ignoring_case
              T_string std_vector rs_people)
    as (_ & Hfirst & Hbyname & _ & Hnone & Hcase).
  destruct (columnPosition_first_match_ignoring_case
              T_Int32 std_vector rs_people) as (_ & _ & _ & Hskip & _ & _).
  split; [|split; [|split; [|split]]]; cycle 4.
  - apply Hskip. constructor; [|constructor; [|constructor]].
    + intros (_ & _ & Hn). vm_compute in Hn. discriminate Hn.
    + intros (HT & _). discriminate HT.
  - apply (Hbyname "NAME" [ext_id] ext_name []); try reflexivity.
    constructor; [|constructor]. vm_compute. discriminate.
  - apply Hnone. intros e He.
    apply list_elem_of_In in He. simpl in He.
    destruct He as [<-|[<-|[]]]; vm_compute; discriminate.
  - apply (Hcase "Name" "nAME"). reflexivity.
  - apply Hfirst. exists [ext_id], ext_name, []. split; [reflexivity|].
    split; [|split; [|reflexivity]].
    + constructor; [|constructor]. intros (HT & _). discriminate HT.
    + split; [reflexivity|]. split; reflexivity.
Defined.

End NameResolution.

Section TypeMismatch.

Import RecordSet Examples PocoString.

(** C2 at a concrete input.  The scenario's second column is named
    "name" and stores strings.  [column<Int32, std::vector>("name")]
    resolves the name to that column, yet it throws
    [NotFoundException], not [BadCastException]: the very result of a
    lookup of a name that no column has. *)
Lemma column_byName_mismatch_is_NotFound :
  ext_name ∈ extractions (stmt rs_people)
  ∧ name_matches "name" ext_name
  ∧ ext_T ext_name ≠ T_Int32
  ∧ column_byName T_Int32 std_vector rs_people "name"
    = Throw NotFoundException
  ∧ column_byName T_Int32 std_vector rs_people "name"
    ≠ Throw BadCastException
  ∧ column_byName T_Int32 std_vector rs_people "name"
    = column_byName T_Int32 std_vector rs_people "no such column".
Proof.
  split; [|split; [|split; [|split; [|split]]]].
  - apply list_elem_of_In. simpl. auto.
  - reflexivity.
  - discriminate.
  - reflexivity.
  - discriminate.
  - reflexivity.
Qed.

(** C2, amended.  By position: when the entry at [pos] is not an
    [InternalExtraction<T,C>], [column<T,C>(pos)] throws
    [BadCastException], and access by position never throws
    [NotFoundException].  By name: the scan passes over the entries
    that are not an [InternalExtraction<T,C>], so when every column
    bearing the name has another element type or container,
    [column<T,C>(name)] throws [NotFoundException], as it does when no
    column bears the name. *)
Theorem column_type_mismatch_by_position_and_by_name
    T C (rs : RecordSet) :
  (∀ pos e, extractions (stmt rs) !! N.to_nat pos = Some e →
            ext_T e ≠ T ∨ ext_C e ≠ C →
            column T C rs pos = Throw BadCastException)
  ∧ (∀ pos, column T C rs pos ≠ Throw NotFoundException)
  ∧ (∀ name,
       (∀ e, e ∈ extractions (stmt rs) → name_matches name e →
             ext_T e ≠ T ∨ ext_C e ≠ C) →
       column_byName T C rs name = Throw NotFoundException).
Proof.
  split; [|split].
  - intros pos e He Hmis. rewrite (column_in_range T C rs pos e He).
    apply dynamic_cast_None in Hmis. rewrite Hmis. reflexivity.
  - intros pos. apply column_not_NotFound.
  - intros name Hmis. unfold column_byName, columnPosition.
    assert (columnPosition_loop T C name (extractions (stmt rs))
            = Throw NotFoundException) as ->; [|reflexivity].
    apply columnPosition_loop_NotFound, Forall_forall.
    intros e He (HT & HC & Hn).
    destruct (Hmis e He Hn); contradiction.
Qed.

Lemma column_type_mismatch_by_position_and_by_name_witness :
  column T_Int32 std_vector rs_people 1 = Throw BadCastException
  ∧ column T_Int32 std_vector rs_people 1 ≠ Throw NotFoundException
  ∧ column_byName T_Int32 std_vector rs_people "name"
    = Throw NotFoundException.
Proof.
  destruct (column_type_mismatch_by_position_and_by_name
              T_Int32 std_vector rs_people) as (Hpos & Hnever & Hname).
  split; [|split].
  - apply (Hpos 1 ext_name); [reflexivity|]. left. discriminate.
  - apply Hnever.
  - apply Hname. intros e He Hn.
    apply list_elem_of_In in He. simpl in He.
    destruct He as [<-|[<-|[]]].
    + vm_compute in Hn. discriminate Hn.
    + left. discriminate.
Defined.

End TypeMismatch.

(** ** The row count across the operations (C3) *)

Section RowCountInvariant.

Import RecordSet Examples.

Lemma moveFirst_stmt (rs : RecordSet) b rs' :
  moveFirst rs = OK (b, rs') → stmt rs' = stmt rs.
Proof.
  unfold moveFirst. destruct (rowCount rs); simpl; [|discriminate].
  intros [= _ <-]. reflexivity.
Qed.

Lemma moveNext_stmt (rs : RecordSet) b rs' :
  moveNext rs = OK (b, rs') → stmt rs' = stmt rs.
Proof.
  unfold moveNext. destruct (rowCount rs); simpl; [|discriminate].
  destruct (_ <? _); intros [= _ <-]; reflexivity.
Qed.

Lemma movePrevious_stmt (rs : RecordSet) b rs' :
  movePrevious rs = OK (b, rs') → stmt rs' = stmt rs.
Proof.
  unfold movePrevious. destruct (_ =? _); intros [= _ <-]; reflexivity.
Qed.

Lemma moveLast_stmt (rs : RecordSet) b rs' :
  moveLast rs = OK (b, rs') → stmt rs' = stmt rs.
Proof.
  unfold moveLast. destruct (rowCount rs); simpl; [|discriminate].
  intros [= _ <-]. reflexivity.
Qed.

Lemma row_stmt (rs : RecordSet) pos r rs' :
  row rs pos = OK (r, rs') → stmt rs' = stmt rs.
Proof.
  unfold row. destruct (rowCount rs); simpl; [|discriminate].
  destruct (_ <=? _); [discriminate|].
  destruct (_rowMap rs !! pos).
  - intros [= _ <-]. reflexivity.
  - destruct (project _ _ _); simpl; [|discriminate].
    intros [= _ <-]. reflexivity.
Qed.

Lemma begin_stmt ctor (rs : RecordSet) : stmt (snd (begin_ ctor rs)) = stmt rs.
Proof. unfold begin_. destruct (_pBegin rs); reflexivity. Qed.

Lemma end_stmt ctor (rs : RecordSet) : stmt (snd (end_ ctor rs)) = stmt rs.
Proof. unfold end_. destruct (_pEnd rs); reflexivity. Qed.

Lemma reachable_stmt s (rs : RecordSet) : reachable s rs → stmt rs = s.
Proof.
  induction 1 as [s | s0 rs s _ _
                 | s rs b rs' _ IH Hm | s rs b rs' _ IH Hm
                 | s rs b rs' _ IH Hm | s rs b rs' _ IH Hm
                 | s rs pos r rs' _ IH Hm
                 | s rs ctor _ IH | s rs ctor _ IH].
  - reflexivity.
  - reflexivity.
  - rewrite (moveFirst_stmt _ _ _ Hm). exact IH.
  - rewrite (moveNext_stmt _ _ _ Hm). exact IH.
  - rewrite (movePrevious_stmt _ _ _ Hm). exact IH.
  - rewrite (moveLast_stmt _ _ _ Hm). exact IH.
  - rewrite (row_stmt _ _ _ _ Hm). exact IH.
  - rewrite begin_stmt. exact IH.
  - rewrite end_stmt. exact IH.
Qed.

Lemma uneven_reachable : reachable uneven rs_uneven.
Proof. apply reach_end, reach_new. Defined.

(** C3 at a concrete input.  The record set built from a statement
    whose two entries report 3 and 5 rows handled, after [end()]: it is
    reachable, [rowCount()] returns 3, and the second entry of its
    extraction set reports 5. *)
Lemma rowCount_differs_from_an_entry :
  reachable uneven rs_uneven
  ∧ rowCount rs_uneven = OK 3
  ∧ ext_score ∈ extractions (stmt rs_uneven)
  ∧ numOfRowsHandled ext_score = 5
  ∧ ¬ (∀ e, e ∈ extractions (stmt rs_uneven) →
            rowCount rs_uneven = OK (numOfRowsHandled e)).
Proof.
  split; [exact uneven_reachable|].
  split; [reflexivity|].
  assert (ext_score ∈ extractions uneven) as Hin
    by (apply list_elem_of_In; simpl; auto).
  split; [exact Hin|]. split; [reflexivity|].
  intros H. specialize (H ext_score Hin). discriminate H.
Qed.

(** C3, amended.  A reachable record set still wraps the statement [s]
    it was last bound to: no cursor movement, [row()], [begin()] or
    [end()] changes it.  Its [rowCount()] is what the first entry of
    the extraction set of [s] reports as handled.  Whenever the
    entries of [s] all report the same number [n], every entry of the
    record set's extraction set reports [n], [rowCount()] returns [n]
    if there is an entry, and it returns nothing else. *)
Theorem rowCount_is_first_entry_of_bound_statement
    (s : Statement) (rs : RecordSet) :
  reachable s rs →
  stmt rs = s
  ∧ (∀ e rest, extractions s = e :: rest →
       rowCount rs = OK (numOfRowsHandled e))
  ∧ (∀ n, executed s n →
       (∀ e, e ∈ extractions (stmt rs) → numOfRowsHandled e = n)
       ∧ (extractions (stmt rs) ≠ [] → rowCount rs = OK n)
       ∧ (∀ m, rowCount rs = OK m → m = n)).
Proof.
  intros Hr. pose proof (reachable_stmt s rs Hr) as Hs.
  split; [exact Hs|]. split.
  - intros e rest E. apply (rowCount_cons rs e rest). rewrite Hs. exact E.
  - intros n Hn. rewrite Hs.
    assert (∀ e, e ∈ extractions s → numOfRowsHandled e = n) as Hall.
    { intros e He. unfold executed in Hn.
      rewrite Forall_forall in Hn. apply (Hn e He). }
    split; [exact Hall|]. split.
    + destruct (extractions s) as [|e rest] eqn:E; [congruence|].
      intros _. rewrite (rowCount_cons rs e rest) by (rewrite Hs; exact E).
      f_equal. apply Hall. left.
    + intros m Hm. apply rowCount_OK_inv in Hm as (e & rest & E & <-).
      apply Hall. rewrite <- Hs, E. left.
Qed.

Lemma people_executed : executed people 3.
Proof. repeat constructor. Qed.

Lemma single_executed : executed single 1.
Proof. repeat constructor. Qed.

Lemma rs_people_last_reachable : reachable people rs_people_last_end.
Proof.
  apply reach_end.
  apply (reach_moveLast people rs_people true); [|reflexivity].
  apply (reach_new people).
Defined.

Lemma rowCount_is_first_entry_of_bound_statement_witness :
  reachable people rs_people_last_end
  ∧ stmt rs_people_last_end = people
  ∧ rowCount rs_people_last_end = OK (numOfRowsHandled ext_id)
  ∧ (∀ e, e ∈ extractions (stmt rs_people_last_end) →
          numOfRowsHandled e = 3)
  ∧ rowCount rs_people_last_end = OK 3.
Proof.
  destruct (rowCount_is_first_entry_of_bound_statement
              people rs_people_last_end
              rs_people_last_reachable) as (Hs & Hfirst & Hagree).
  destruct (Hagree 3 people_executed) as (Hall & Hn & _).
  split; [exact rs_people_last_reachable|].
  split; [exact Hs|].
  split; [exact (Hfirst ext_id [ext_name] eq_refl)|].
  split; [exact Hall|].
  apply Hn. discriminate.
Defined.

End RowCountInvariant.

(** ** Forward traversal (C4) *)

Section ForwardTraversal.

Import RecordSet Examples.

Lemma set_currentRow_same (rs : RecordSet) :
  set_currentRow rs (_currentRow rs) = rs.
Proof. destruct rs. reflexivity. Qed.

Lemma set_currentRow_twice (rs : RecordSet) a b :
  set_currentRow (set_currentRow rs a) b = set_currentRow rs b.
Proof. reflexivity. Qed.

Lemma rowCount_set_currentRow (rs : RecordSet) c :
  rowCount (set_currentRow rs c) = rowCount rs.
Proof. reflexivity. Qed.

Lemma moveNext_advance (rs : RecordSet) n :
  rowCount rs = OK n → _currentRow rs + 1 < n →
  moveNext rs = OK (true, set_currentRow rs (_currentRow rs + 1)).
Proof.
  intros Hn Hlt. unfold moveNext. rewrite Hn. simpl.
  destruct (N.ltb_spec (_currentRow rs + 1) n); [reflexivity | lia].
Qed.

Lemma moveNext_at_end (rs : RecordSet) n :
  rowCount rs = OK n → n <= _currentRow rs + 1 →
  moveNext rs = OK (false, rs).
Proof.
  intros Hn Hge. unfold moveNext. rewrite Hn. simpl.
  destruct (N.ltb_spec (_currentRow rs + 1) n); [lia | reflexivity].
Qed.

Lemma positions_after_S c k :
  positions_after c (S k) = (c + 1) :: positions_after (c + 1) k.
Proof.
  unfold positions_after. simpl. f_equal; [lia|].
  rewrite <- seq_shift, <- list_fmap_compose.
  apply list_fmap_ext. intros _ i _. simpl. lia.
Qed.

Lemma visit_loop_runs_to_the_end (n : N) (k : nat) :
  ∀ (rs : RecordSet) visited fuel,
    rowCount rs = OK n →
    _currentRow rs + N.of_nat k + 1 = n →
    (k < fuel)%nat →
    visit_loop fuel rs visited
      = OK (Some (visited ++ positions_after (_currentRow rs) k,
                  set_currentRow rs (n - 1))).
Proof.
  induction k as [|k IH]; intros rs visited fuel Hn Hc Hfuel;
    (destruct fuel as [|fuel]; [lia|]); simpl.
  - rewrite (moveNext_at_end rs n Hn) by lia. simpl.
    rewrite app_nil_r.
    replace (n - 1) with (_currentRow rs) by lia.
    rewrite set_currentRow_same. reflexivity.
  - rewrite (moveNext_advance rs n Hn) by lia. simpl.
    rewrite (IH (set_currentRow rs (_currentRow rs + 1))); simpl;
      [ | exact Hn | lia | lia ].
    rewrite positions_after_S, <- app_assoc. reflexivity.
Qed.

Lemma positions_from_zero (k : nat) :
  0 :: positions_after 0 k = N.of_nat <$> seq 0 (S k).
Proof.
  unfold positions_after. simpl. f_equal.
  rewrite <- seq_shift, <- list_fmap_compose.
  apply list_fmap_ext. intros _ i _. simpl. lia.
Qed.

Lemma traverse_visits_every_row (rs : RecordSet) n fuel :
  rowCount rs = OK n → (N.to_nat n ≤ fuel)%nat →
  traverse fuel rs
    = OK (Some (N.of_nat <$> seq 0 (N.to_nat n), set_currentRow rs (n - 1))).
Proof.
  intros Hn Hfuel. unfold traverse, moveFirst. rewrite Hn. simpl.
  destruct (N.ltb_spec 0 n) as [Hpos|Hzero].
  - rewrite (visit_loop_runs_to_the_end n (N.to_nat n - 1));
      simpl; [ | exact Hn | lia | lia ].
    replace (N.to_nat n) with (S (N.to_nat n - 1)) at 2 by lia.
    rewrite <- positions_from_zero. reflexivity.
  - replace n with 0 by lia. reflexivity.
Qed.

Lemma positions_lookup (k i : nat) a :
  (N.of_nat <$> seq 0 k) !! i = Some a → a = N.of_nat i ∧ (i < k)%nat.
Proof.
  rewrite list_lookup_fmap. intros H.
  destruct (seq 0 k !! i) as [j|] eqn:E; [|discriminate].
  apply lookup_seq in E as [-> Hlt]. injection H as <-. auto.
Qed.

(** C4. The row count being [n]: [moveNext()] advances the cursor by
    one and returns true when [cursor + 1 < n], and otherwise returns
    false and leaves the record set as it is.  With fuel for [n]
    steps, [moveFirst()] followed by [moveNext()] until it returns
    false comes to an end, having visited the positions
    [0, 1, ..., n-1]: [n] positions, pairwise distinct, strictly
    increasing, the last being [n-1] where the cursor then stands (if
    there is a row at all), and one more [moveNext()] returns false
    and changes nothing. *)
Theorem moveNext_steps_and_visits_every_row (rs : RecordSet) (n : N) :
  rowCount rs = OK n →
  (_currentRow rs + 1 < n →
     moveNext rs = OK (true, set_currentRow rs (_currentRow rs + 1)))
  ∧ (n <= _currentRow rs + 1 → moveNext rs = OK (false, rs))
  ∧ (∀ fuel, (N.to_nat n ≤ fuel)%nat →
       ∃ visited final,
         traverse fuel rs = OK (Some (visited, final))
         ∧ visited = N.of_nat <$> seq 0 (N.to_nat n)
         ∧ N.of_nat (length visited) = n
         ∧ NoDup visited
         ∧ (∀ i j a b, visited !! i = Some a → visited !! j = Some b →
                       (i < j)%nat → a < b)
         ∧ (0 < n → last visited = Some (n - 1)
                    ∧ _currentRow final = n - 1)
         ∧ moveNext final = OK (false, final)).
Proof.
  intros Hn. split; [|split].
  - apply moveNext_advance, Hn.
  - apply moveNext_at_end, Hn.
  - intros fuel Hfuel.
    exists (N.of_nat <$> seq 0 (N.to_nat n)), (set_currentRow rs (n - 1)).
    split; [apply traverse_visits_every_row; assumption|].
    split; [reflexivity|].
    split; [rewrite length_fmap, length_seq; lia|].
    split; [|split; [|split]].
    + apply NoDup_fmap_2; [|apply NoDup_seq].
      intros x y. lia.
    + intros i j a b Ha Hb Hij.
      apply positions_lookup in Ha as [-> _].
      apply positions_lookup in Hb as [-> _]. lia.
    + intros Hpos. split; [|reflexivity].
      replace (N.to_nat n) with (S (N.to_nat n - 1)) by lia.
      rewrite seq_S, fmap_app, list_fmap_singleton, last_snoc. f_equal. lia.
    + apply (moveNext_at_end _ n); [exact Hn | simpl; lia].
Qed.

Lemma moveNext_steps_and_visits_every_row_witness :
  moveNext rs_people = OK (true, set_currentRow rs_people 1)
  ∧ moveNext rs_people_last = OK (false, rs_people_last)
  ∧ ∃ visited final,
      traverse 3 rs_people = OK (Some (visited, final))
      ∧ visited = [0; 1; 2]
      ∧ _currentRow final = 2
      ∧ moveNext final = OK (false, final).
Proof.
  destruct (moveNext_steps_and_visits_every_row rs_people 3 eq_refl)
    as (Hadv & _ & Htrav).
  destruct (moveNext_steps_and_visits_every_row rs_people_last 3 eq_refl)
    as (_ & Hend & _).
  split; [|split].
  - apply Hadv. reflexivity.
  - apply Hend. vm_compute. discriminate.
  - destruct (Htrav 3%nat (le_n _))
      as (visited & final & Ht & Hv & _ & _ & _ & Hlast & Hstop).
    exists visited, final.
    split; [exact Ht|]. split; [exact Hv|].
    split; [apply Hlast; reflexivity | exact Hstop].
Defined.

End ForwardTraversal.

(** ** Further properties of the typed column accessors *)

Section ColumnOutcomes.

Import RecordSet Examples PocoString.

Lemma lookup_to_nat_ge (rs : RecordSet) pos :
  columnCount rs <= pos → extractions (stmt rs) !! N.to_nat pos = None.
Proof.
  unfold columnCount. intros H. apply lookup_ge_None. lia.
Qed.

Lemma lookup_to_nat_lt (rs : RecordSet) pos :
  pos < columnCount rs →
  ∃ e, extractions (stmt rs) !! N.to_nat pos = Some e.
Proof.
  unfold columnCount. intros H.
  destruct (lookup_lt_is_Some_2 (extractions (stmt rs)) (N.to_nat pos))
    as [e He]; [lia | eauto].
Qed.

Lemma column_in_range_OK T C (rs : RecordSet) pos e :
  extractions (stmt rs) !! N.to_nat pos = Some e →
  ext_T e = T ∧ ext_C e = C →
  column T C rs pos = OK (ext_column e).
Proof.
  intros He [HT HC]. rewrite (column_in_range T C rs pos e He).
  assert (dynamic_cast T C e = Some e) as ->
    by (apply dynamic_cast_Some; auto).
  reflexivity.
Qed.

Lemma column_in_range_BadCast T C (rs : RecordSet) pos e :
  extractions (stmt rs) !! N.to_nat pos = Some e →
  ext_T e ≠ T ∨ ext_C e ≠ C →
  column T C rs pos = Throw BadCastException.
Proof.
  intros He Hmis. rewrite (column_in_range T C rs pos e He).
  apply dynamic_cast_None in Hmis. rewrite Hmis. reflexivity.
Qed.

(** The three outcomes of [column<T,C>(pos)], each with the inputs that
    lead to it: [RangeException] exactly for [pos >= columnCount()]
    (every position of a record set without columns), [BadCastException]
    exactly for a position in range whose entry is not an
    [InternalExtraction<T,C>], and a column exactly for a position in
    range whose entry is one, the column being that entry's. *)
Theorem column_outcomes T C (rs : RecordSet) (pos : N) :
  (column T C rs pos = Throw RangeException ↔ columnCount rs <= pos)
  ∧ (column T C rs pos = Throw BadCastException ↔
       ∃ e, extractions (stmt rs) !! N.to_nat pos = Some e
            ∧ (ext_T e ≠ T ∨ ext_C e ≠ C))
  ∧ (∀ c, column T C rs pos = OK c ↔
       ∃ e, extractions (stmt rs) !! N.to_nat pos = Some e
            ∧ ext_T e = T ∧ ext_C e = C ∧ c = ext_column e).
Proof.
  destruct (N.le_gt_cases (columnCount rs) pos) as [Hge|Hlt].
  - rewrite (column_out_of_range T C rs pos Hge).
    pose proof (lookup_to_nat_ge rs pos Hge) as Hnone.
    split; [tauto|]. split.
    + split; [discriminate|]. intros (e & He & _). congruence.
    + intros c. split; [discriminate|]. intros (e & He & _). congruence.
  - destruct (lookup_to_nat_lt rs pos Hlt) as [e He].
    rewrite (column_in_range T C rs pos e He).
    destruct (dynamic_cast T C e) as [p|] eqn:Hc.
    + apply dynamic_cast_Some in Hc as (-> & HT & HC).
      split; [split; [discriminate | lia]|]. split.
      * split; [discriminate|]. intros (e' & He' & Hmis).
        assert (e' = e) as -> by congruence. destruct Hmis; contradiction.
      * intros c. split.
        -- intros [= <-]. exists e. auto.
        -- intros (e' & He' & _ & _ & ->). congruence.
    + apply dynamic_cast_None in Hc.
      split; [split; [discriminate | lia]|]. split.
      * split; [|reflexivity]. intros _. exists e. auto.
      * intros c. split; [discriminate|].
        intros (e' & He' & HT & HC & _).
        assert (e' = e) as -> by congruence. destruct Hc; contradiction.
Qed.

Lemma column_outcomes_witness :
  column T_Int32 std_vector (RecordSet_new no_columns) 0
    = Throw RangeException
  ∧ column T_Int32 std_list rs_people 0 = Throw BadCastException
  ∧ column T_string std_vector rs_people 1 = OK (ext_column ext_name).
Proof.
  split; [|split].
  - apply (column_outcomes T_Int32 std_vector (RecordSet_new no_columns) 0).
    vm_compute. discriminate.
  - apply (column_outcomes T_Int32 std_list rs_people 0).
    exists ext_id. split; [reflexivity|]. right. discriminate.
  - apply (column_outcomes T_string std_vector rs_people 1).
    exists ext_name. repeat split.
Defined.

Lemma first_typed_match_lookup T C name (rs : RecordSet) pre e post :
  extractions (stmt rs) = pre ++ e :: post →
  Forall (fun e' => ¬ typed_match T C name e') pre →
  typed_match T C name e →
  columnPosition T C rs name = OK (Column_position (ext_column e))
  ∧ extractions (stmt rs) !! length pre = Some e.
Proof.
  intros Hsplit Hpre He. split.
  - apply columnPosition_loop_OK. exists pre, e, post. auto.
  - rewrite Hsplit. apply list_lookup_middle. reflexivity.
Qed.

Lemma column_byName_at_position T C (rs : RecordSet) name pre e post :
  extractions (stmt rs) = pre ++ e :: post →
  Forall (fun e' => ¬ typed_match T C name e') pre →
  typed_match T C name e →
  column_byName T C rs name
    = column T C rs (Column_position (ext_column e)).
Proof.
  intros Hsplit Hpre He.
  destruct (first_typed_match_lookup T C name rs pre e post Hsplit Hpre He)
    as [Hp _].
  unfold column_byName. rewrite Hp. reflexivity.
Qed.

Lemma columnPosition_throws_only_NotFound T C (rs : RecordSet) name ex :
  columnPosition T C rs name = Throw ex → ex = NotFoundException.
Proof.
  unfold columnPosition.
  induction (extractions (stmt rs)) as [|x rest IH].
  - simpl. congruence.
  - rewrite columnPosition_loop_step.
    destruct (decide (typed_match T C name x)); [discriminate | exact IH].
Qed.

Lemma column_byName_indexes_by_position_aux T C (rs : RecordSet) name :
  positions_aligned (stmt rs) →
  (∀ pre e post,
     extractions (stmt rs) = pre ++ e :: post →
     Forall (fun e' => ¬ typed_match T C name e') pre →
     typed_match T C name e →
     column_byName T C rs name = OK (ext_column e))
  ∧ (∀ c, column_byName T C rs name = OK c →
          icompare name (Column_name c) = 0%Z)
  ∧ (∀ ex, column_byName T C rs name = Throw ex →
           ex = NotFoundException).
Proof.
  intros Hal.
  assert (∀ pre e post,
     extractions (stmt rs) = pre ++ e :: post →
     Forall (fun e' => ¬ typed_match T C name e') pre →
     typed_match T C name e →
     column_byName T C rs name = OK (ext_column e)) as Hfound.
  { intros pre e post Hsplit Hpre He.
    rewrite (column_byName_at_position T C rs name pre e post Hsplit Hpre He).
    destruct (first_typed_match_lookup T C name rs pre e post Hsplit Hpre He)
      as [_ Hl].
    rewrite (Hal _ _ Hl).
    apply (column_in_range_OK T C rs (N.of_nat (length pre)) e).
    - rewrite Nat2N.id. exact Hl.
    - destruct He as (HT & HC & _). auto. }
  split; [exact Hfound|].
  destruct (columnPosition T C rs name) as [p|ex0] eqn:Hp.
  - apply columnPosition_loop_OK in Hp
      as (pre & e & post & Hsplit & Hpre & He & ->).
    rewrite (Hfound pre e post Hsplit Hpre He). split.
    + intros c [= <-]. destruct He as (_ & _ & Hn). exact Hn.
    + intros ex. discriminate.
  - unfold column_byName. rewrite Hp. simpl. split; [discriminate|].
    intros ex [= <-].
    apply (columnPosition_throws_only_NotFound T C rs name ex0 Hp).
Qed.

(** [column<T,C>(name)] indexes the extraction set with the [position()]
    of the first [Column<T,C>] that bears the name, not with the place
    where the scan found it: its result is that of [column<T,C>] at that
    position, whatever entry stands there.  When every column's
    position is its index, the entry there is the one found: the call
    returns the column of the first match, a column whose name compares
    equal to the requested one, and otherwise it throws
    [NotFoundException] and nothing else. *)
Theorem column_byName_indexes_by_position T C (rs : RecordSet) name :
  (∀ pre e post,
     extractions (stmt rs) = pre ++ e :: post →
     Forall (fun e' => ¬ typed_match T C name e') pre →
     typed_match T C name e →
     column_byName T C rs name
       = column T C rs (Column_position (ext_column e)))
  ∧ (positions_aligned (stmt rs) →
     (∀ pre e post,
        extractions (stmt rs) = pre ++ e :: post →
        Forall (fun e' => ¬ typed_match T C name e') pre →
        typed_match T C name e →
        column_byName T C rs name = OK (ext_column e))
     ∧ (∀ c, column_byName T C rs name = OK c →
             icompare name (Column_name c) = 0%Z)
     ∧ (∀ ex, column_byName T C rs name = Throw ex →
              ex = NotFoundException)).
Proof.
  split.
  - apply column_byName_at_position.
  - apply column_byName_indexes_by_position_aux.
Qed.

Lemma people_aligned : positions_aligned people.
Proof.
  intros i e He. destruct i as [|[|i]]; simpl in He; [| |discriminate].
  - injection He as <-. reflexivity.
  - injection He as <-. reflexivity.
Defined.

Lemma column_byName_indexes_by_position_witness :
  column_byName T_string std_vector (RecordSet_new people_swapped) "name"
    = Throw BadCastException
  ∧ column_byName T_string std_vector rs_people "NAME"
    = OK (ext_column ext_name).
Proof.
  split.
  - destruct (column_byName_indexes_by_position
                T_string std_vector (RecordSet_new people_swapped) "name")
      as [H _].
    rewrite (H [] ext_name [ext_id]).
    + reflexivity.
    + reflexivity.
    + constructor.
    + repeat split.
  - destruct (column_byName_indexes_by_position
                T_string std_vector rs_people "NAME") as [_ H].
    destruct (H people_aligned) as (Hfound & _ & _).
    apply (Hfound [ext_id] ext_name []).
    + reflexivity.
    + constructor; [|constructor]. intros (HT & _). discriminate HT.
    + repeat split.
Defined.

End ColumnOutcomes.

(** ** Further properties of the typed value accessors *)

Section ValueOutcomes.

Import RecordSet Examples PocoString.

Lemma value_T_by_container T C (rs : RecordSet) col row :
  container_of_storage (storage (stmt rs)) = Some C →
  value_T T rs col row
    = (column T C rs col ≫= fun c => Column_value c row).
Proof.
  unfold value_T, container_of_storage.
  destruct (storage (stmt rs)); intros [= <-]; reflexivity.
Qed.

Lemma value_T_byName_by_container T C (rs : RecordSet) name row :
  container_of_storage (storage (stmt rs)) = Some C →
  value_T_byName T rs name row
    = (column_byName T C rs name ≫= fun c => Column_value c row).
Proof.
  unfold value_T_byName, container_of_storage.
  destruct (storage (stmt rs)); intros [= <-]; reflexivity.
Qed.

(** What [value<T>(col, row)] does when the storage tag selects the
    container [C].  A column index at or beyond [columnCount()] throws
    [RangeException], whatever the row.  An entry in range that is not
    an [InternalExtraction<T,C>] throws [BadCastException], whatever the
    row: this is every column whose container differs from the one the
    storage tag names, also when its element type is [T].  An entry that
    is one yields what its column's [value(row)] yields. *)
Theorem value_T_outcomes T C (rs : RecordSet) (col row : N) :
  container_of_storage (storage (stmt rs)) = Some C →
  (columnCount rs <= col → value_T T rs col row = Throw RangeException)
  ∧ (∀ e, extractions (stmt rs) !! N.to_nat col = Some e →
          ext_T e ≠ T ∨ ext_C e ≠ C →
          value_T T rs col row = Throw BadCastException)
  ∧ (∀ e, extractions (stmt rs) !! N.to_nat col = Some e →
          ext_T e = T → ext_C e = C →
          value_T T rs col row = Column_value (ext_column e) row).
Proof.
  intros HC. rewrite (value_T_by_container T C rs col row HC).
  split; [|split].
  - intros Hge. rewrite (column_out_of_range T C rs col Hge). reflexivity.
  - intros e He Hmis.
    rewrite (column_in_range_BadCast T C rs col e He Hmis). reflexivity.
  - intros e He HT HCe.
    rewrite (column_in_range_OK T C rs col e He (conj HT HCe)). reflexivity.
Qed.

Lemma value_T_outcomes_witness :
  value_T T_Int32 rs_people 2 0 = Throw RangeException
  ∧ value_T T_Int32 (RecordSet_new people_list_tag) 0 0
    = Throw BadCastException
  ∧ value_T T_Int32 rs_people 0 2 = OK (V_int 3)
  ∧ value_T T_Int32 rs_people 0 3 = Throw RangeException.
Proof.
  destruct (value_T_outcomes T_Int32 std_vector rs_people 2 0 eq_refl)
    as (H1 & _ & _).
  destruct (value_T_outcomes T_Int32 std_list
              (RecordSet_new people_list_tag) 0 0 eq_refl) as (_ & H2 & _).
  destruct (value_T_outcomes T_Int32 std_vector rs_people 0 2 eq_refl)
    as (_ & _ & H3).
  destruct (value_T_outcomes T_Int32 std_vector rs_people 0 3 eq_refl)
    as (_ & _ & H4).
  split; [|split; [|split]].
  - apply H1. vm_compute. discriminate.
  - apply (H2 ext_id); [reflexivity|]. right. discriminate.
  - rewrite (H3 ext_id); reflexivity.
  - rewrite (H4 ext_id); reflexivity.
Defined.

(** [value<T>(name, row)] is the name lookup followed by the access by
    position: with the storage tag selecting the container [C], it is
    [columnPosition<T,C>(name)] and then [value<T>] at the position
    found.  Names that differ only in letter case give the same result,
    under every storage tag. *)
Theorem value_T_byName_is_lookup_then_value_T
    T (rs : RecordSet) (name : string) (row : N) :
  (∀ C, container_of_storage (storage (stmt rs)) = Some C →
        value_T_byName T rs name row
          = (columnPosition T C rs name ≫= fun pos => value_T T rs pos row))
  ∧ (∀ name', lower name = lower name' →
        value_T_byName T rs name row = value_T_byName T rs name' row).
Proof.
  split.
  - intros C HC. rewrite (value_T_byName_by_container T C rs name row HC).
    unfold column_byName.
    destruct (columnPosition T C rs name) as [p|ex]; simpl; [|reflexivity].
    rewrite (value_T_by_container T C rs p row HC). reflexivity.
  - intros name' Hl. unfold value_T_byName, column_byName, columnPosition.
    destruct (storage (stmt rs)); try reflexivity;
      rewrite (columnPosition_loop_lower T _ name name' _ Hl); reflexivity.
Qed.

Lemma value_T_byName_is_lookup_then_value_T_witness :
  value_T_byName T_string rs_people "name" 1 = OK (V_string "b")
  ∧ value_T_byName T_string rs_people "name" 1
    = value_T_byName T_string rs_people "NaMe" 1.
Proof.
  destruct (value_T_byName_is_lookup_then_value_T
              T_string rs_people "name" 1) as [Hcomp Hcase].
  split.
  - rewrite (Hcomp std_vector eq_refl). reflexivity.
  - apply Hcase. reflexivity.
Defined.

End ValueOutcomes.

(** ** Metadata by position *)

Section MetadataByPosition.

Import RecordSet Examples.

Lemma UInt32_cast_wraps (pos k : N) :
  (pos + k * 2 ^ 32) mod 2 ^ 32 = pos mod 2 ^ 32.
Proof. apply N.Div0.mod_add. Qed.

(** The accessors [columnType], [columnName], [columnLength] and
    [columnPrecision] by position pass [static_cast<UInt32>(pos)] on:
    only the low 32 bits of the position count.  A position and the
    same position plus a multiple of [2^32] give the same result, so a
    position of [2^32] or more is answered like a small one. *)
Theorem metadata_by_position_keeps_low_32_bits (rs : RecordSet) (pos k : N) :
  columnType rs (pos + k * 2 ^ 32) = columnType rs pos
  ∧ columnName rs (pos + k * 2 ^ 32) = columnName rs pos
  ∧ columnLength rs (pos + k * 2 ^ 32) = columnLength rs pos
  ∧ columnPrecision rs (pos + k * 2 ^ 32) = columnPrecision rs pos.
Proof.
  unfold columnType, columnName, columnLength, columnPrecision.
  rewrite UInt32_cast_wraps. repeat split.
Qed.

End MetadataByPosition.

(** ** NULL coalescing: errors and the converse *)

Section NullCoalescingErrors.

Import RecordSet Examples.

(** [nvl] never answers an error with the default.  An exception of the
    NULL test (an unknown name, a position out of range) leaves [nvl] by
    the same exception; and when [nvl] returns a value, either the NULL
    test returned true and the value is [DynamicAny(deflt)], or it
    returned false and the value is the one [value] returns for the
    column at the cursor row. *)
Theorem nvl_never_masks_an_error
    (rs : RecordSet) (name : string) (index : N) (deflt : CppValue) :
  (∀ ex, isNull_byName rs name = Throw ex →
         nvl_byName rs name deflt = Throw ex)
  ∧ (∀ ex, isNull rs index = Throw ex → nvl rs index deflt = Throw ex)
  ∧ (∀ v, nvl_byName rs name deflt = OK v →
          (isNull_byName rs name = OK true ∧ v = Any deflt)
          ∨ (isNull_byName rs name = OK false
             ∧ value_cur_byName rs name = OK v))
  ∧ (∀ v, nvl rs index deflt = OK v →
          (isNull rs index = OK true ∧ v = Any deflt)
          ∨ (isNull rs index = OK false ∧ value_cur rs index = OK v)).
Proof.
  unfold nvl_byName, nvl.
  split; [|split; [|split]].
  - intros ex ->. reflexivity.
  - intros ex ->. reflexivity.
  - intros v. destruct (isNull_byName rs name) as [[|]|ex]; simpl.
    + intros [= <-]. left. auto.
    + intros H. right. auto.
    + discriminate.
  - intros v. destruct (isNull rs index) as [[|]|ex]; simpl.
    + intros [= <-]. left. auto.
    + intros H. right. auto.
    + discriminate.
Qed.

Lemma nvl_never_masks_an_error_witness :
  nvl_byName rs_people "zip" (V_int 0) = Throw NotFoundException
  ∧ nvl rs_people 9 (V_int 0) = Throw RangeException
  ∧ ((isNull_byName rs_people_last "name" = OK true
      ∧ Any (V_int 0) = Any (V_int 0))
     ∨ (isNull_byName rs_people_last "name" = OK false
        ∧ value_cur_byName rs_people_last "name" = OK (Any (V_int 0)))).
Proof.
  destruct (nvl_never_masks_an_error rs_people "zip" 9 (V_int 0))
    as (H1 & H2 & _ & _).
  destruct (nvl_never_masks_an_error rs_people_last "name" 0 (V_int 0))
    as (_ & _ & H3 & _).
  split; [|split].
  - apply H1. reflexivity.
  - apply H2. reflexivity.
  - apply H3. reflexivity.
Defined.

End NullCoalescingErrors.

(** ** The end sentinel and rebinding *)

Section SentinelAndRebinding.

Import RecordSet Examples.

(** [end()] creates the sentinel once.  A call changes no member but
    [_pEnd]; a second call returns the iterator of the first and leaves
    the record set as the first call left it, without calling the
    constructor again; and since [operator =] does not touch [_pEnd],
    [end()] after a rebinding still returns the iterator made before
    it. *)
Theorem end_creates_the_sentinel_once
    (ctor ctor' : RecordSet → bool → RowIterator) (rs : RecordSet) :
  let it := fst (end_ ctor rs) in
  let rs1 := snd (end_ ctor rs) in
  stmt rs1 = stmt rs ∧ _currentRow rs1 = _currentRow rs
  ∧ _pBegin rs1 = _pBegin rs ∧ _rowMap rs1 = _rowMap rs
  ∧ _pEnd rs1 = Some it
  ∧ end_ ctor' rs1 = (it, rs1)
  ∧ (∀ s, end_ ctor' (assign rs1 s) = (it, assign rs1 s)).
Proof.
  unfold end_. destruct (_pEnd rs) as [it|] eqn:E; simpl.
  - rewrite E. repeat split.
  - repeat split.
Qed.

(** What the accessors that read the statement and the cursor return
    after a rebinding depends on the new statement alone: two record
    sets with different statements, cursors and caches agree on all of
    them once both are rebound to the same statement, and rebinding
    twice is rebinding to the last statement. *)
Theorem rebinding_forgets_statement_and_cursor
    (rs1 rs2 : RecordSet) (s s' : Statement) :
  assign (assign rs1 s') s = assign rs1 s
  ∧ rowCount (assign rs1 s) = rowCount (assign rs2 s)
  ∧ columnCount (assign rs1 s) = columnCount (assign rs2 s)
  ∧ (∀ T C pos,
       column T C (assign rs1 s) pos = column T C (assign rs2 s) pos)
  ∧ (∀ T C name,
       column_byName T C (assign rs1 s) name
         = column_byName T C (assign rs2 s) name)
  ∧ (∀ T col row,
       value_T T (assign rs1 s) col row = value_T T (assign rs2 s) col row)
  ∧ (∀ index deflt,
       nvl (assign rs1 s) index deflt = nvl (assign rs2 s) index deflt)
  ∧ (∀ name deflt,
       nvl_byName (assign rs1 s) name deflt
         = nvl_byName (assign rs2 s) name deflt).
Proof. repeat split. Qed.

End SentinelAndRebinding.

(** ** Typed values by name when positions are indices *)

Section ValueByNameAligned.

Import RecordSet Examples PocoString.

(** When every column's position is its index and the storage tag
    selects the container [C]: [value<T>(name, row)] reads row [row] of
    the first [Column<T,C>] that bears the name, and when no
    [Column<T,C>] bears the name it throws [NotFoundException] whatever
    the row is. *)
Theorem value_T_byName_reads_first_match
    T C (rs : RecordSet) (name : string) (row : N) :
  positions_aligned (stmt rs) →
  container_of_storage (storage (stmt rs)) = Some C →
  (∀ pre e post,
     extractions (stmt rs) = pre ++ e :: post →
     Forall (fun e' => ¬ typed_match T C name e') pre →
     typed_match T C name e →
     value_T_byName T rs name row = Column_value (ext_column e) row)
  ∧ (Forall (fun e => ¬ typed_match T C name e) (extractions (stmt rs)) →
     value_T_byName T rs name row = Throw NotFoundException).
Proof.
  intros Hal HC.
  rewrite (value_T_byName_by_container T C rs name row HC).
  split.
  - intros pre e post Hsplit Hpre He.
    destruct (column_byName_indexes_by_position_aux T C rs name Hal)
      as [Hfound _].
    rewrite (Hfound pre e post Hsplit Hpre He). reflexivity.
  - intros Hnone. unfold column_byName, columnPosition.
    apply columnPosition_loop_NotFound in Hnone. rewrite Hnone. reflexivity.
Qed.

Lemma value_T_byName_reads_first_match_witness :
  value_T_byName T_string rs_people "Name" 2 = OK (V_string EmptyString)
  ∧ value_T_byName T_Int32 rs_people "Name" 2 = Throw NotFoundException.
Proof.
  split.
  - destruct (value_T_byName_reads_first_match
                T_string std_vector rs_people "Name" 2
                people_aligned eq_refl) as [H _].
    rewrite (H [ext_id] ext_name []).
    + reflexivity.
    + reflexivity.
    + constructor; [|constructor]. intros (HT & _). discriminate HT.
    + repeat split.
  - destruct (value_T_byName_reads_first_match
                T_Int32 std_vector rs_people "Name" 2
                people_aligned eq_refl) as [_ H].
    apply H. constructor; [|constructor; [|constructor]].
    + intros (_ & _ & Hn). vm_compute in Hn. discriminate Hn.
    + intros (HT & _). discriminate HT.
Defined.

End ValueByNameAligned.
